(** * toasty.norm: normalisation and stretch of image data

    A shallow embedding of [toasty/norm.py].  The numpy code works on
    arrays of IEEE binary64 numbers and overwrites its intermediate
    buffers in place ([out=...]).  The embedding has three layers:

    - [Scalar]: the element arithmetic the ufuncs use, as an interface
      with two instances: [Binary64.binary64], Rocq's primitive floats,
      on which the code runs as numpy runs it, and [Exact.exact], the
      real numbers;
    - a heap of array buffers and a small state-and-exception monad, in
      which every function of the module is written statement by
      statement, with the same allocation and overwriting as the source;
    - element-wise characterisations of these functions, proved against
      the monadic code for every instance ([Runs]).

    Results about the control flow (which warper runs, when the error is
    raised, which buffers are written) hold for every instance.  Results
    about the values the code returns (ranges, clipping, the
    quantization) are proved over binary64, with its rounding, overflow
    and NaN, for whatever the C library computes.  The exact instance
    serves to write out the formulas of the warps in real arithmetic. *)

From Stdlib Require Import ZArith List String Ascii Bool Reals Lra Lia Floats.
From stdpp Require Import base option list.

#[local] Open Scope Z_scope.

(** ** Element arithmetic *)

(** The scalar operations numpy applies element by element.  [of_int] is
    the conversion of a Python [int] operand (as in [np.multiply(255, _)]);
    [lit_0_5] and [lit_1_001] are the literals [0.5] and [1.001];
    [to_int] is the C conversion to an integer used by [astype]. *)
Class Scalar (F : Type) := {
  of_int : Z -> F;
  lit_0_5 : F;
  lit_1_001 : F;
  add : F -> F -> F;
  sub : F -> F -> F;
  mul : F -> F -> F;
  div : F -> F -> F;
  ltb : F -> F -> bool;
  leb : F -> F -> bool;
  isnan : F -> bool;
  f_sqrt : F -> F;
  f_log : F -> F;
  f_pow : F -> F -> F;
  f_sinh : F -> F;
  f_arcsinh : F -> F;
  to_int : F -> Z
}.

Module Py.
Section Builtins.
Context {F : Type} `{Scalar F}.

(** Python's [max(a, b)]: the first argument unless the second is
    strictly greater. *)
Definition max (a b : F) : F := if ltb a b then b else a.

(** Python's [min(a, b)]: the first argument unless the second is
    strictly smaller. *)
Definition min (a b : F) : F := if ltb b a then b else a.
End Builtins.
End Py.

Module Np.
Section Ufuncs.
Context {F : Type} `{Scalar F}.

(** One element of [np.clip(x, lo, hi)]: numpy computes
    [min(max(x, lo), hi)] where a NaN first operand is returned as
    it is. *)
Definition maximum (a b : F) : F :=
  if isnan a then a else if ltb b a then a else b.

Definition minimum (a b : F) : F :=
  if isnan a then a else if ltb a b then a else b.

Definition clip (lo hi x : F) : F := minimum (maximum x lo) hi.

(** One element of [astype(np.uint8)]: truncation toward zero, then
    the low eight bits. *)
Definition to_uint8 (x : F) : Z := to_int x mod 256.
End Ufuncs.
End Np.

(** ** The heap of array buffers *)

(** An array object is a reference into the heap; the heap maps the
    reference to the buffer's contents.  A fresh array gets the next
    free reference. *)
Abbreviation array := nat (only parsing).

(** The heap: one buffer of numbers per reference. *)
Abbreviation heap F := (list (list F)) (only parsing).

Inductive outcome (A : Type) : Type :=
| Ok (a : A)
| Raise (msg : string).
Arguments Ok {A} a.
Arguments Raise {A} msg.

Section Heap.
Context {F : Type}.

Definition M (A : Type) : Type := heap F -> outcome A * heap F.

Definition ret {A} (a : A) : M A := fun h => (Ok a, h).

Definition bind {A B} (c : M A) (k : A -> M B) : M B :=
  fun h => match c h with
           | (Ok a, h') => k a h'
           | (Raise msg, h') => (Raise msg, h')
           end.

Definition raise {A} (msg : string) : M A := fun h => (Raise msg, h).

(** The contents of an array. *)
Definition contents (a : array) : M (list F) :=
  fun h => (Ok (default [] (h !! a)), h).

(** A ufunc called without [out]: the result is a new array. *)
Definition ufunc_new (f : F -> F) (x : array) : M array :=
  fun h => (Ok (length h), h ++ [f <$> default [] (h !! x)]).

(** A ufunc called with [out=out]: the result overwrites [out] and
    [out] is returned. *)
Definition ufunc_out (f : F -> F) (x out : array) : M array :=
  fun h => (Ok out, <[out := f <$> default [] (h !! x)]> h).
End Heap.
Arguments M F A : clear implicits.

Declare Scope np_scope.
Delimit Scope np_scope with np.
Notation "x <- c ;; k" := (bind c (fun x => k))
  (at level 100, c at next level, right associativity) : np_scope.
#[local] Open Scope np_scope.

(** ** The module [toasty.norm] *)

Section Norm.
Context {F : Type} `{Scalar F}.

(** [norm(x, vmin, vmax)], lines 33-40. *)
Definition norm (x : array) (vmin vmax : F) : M F array :=
  result <- ufunc_new (fun e => sub e (mul (of_int 1) vmin)) x ;;
  result <- ufunc_out (fun e => div e (sub vmax vmin)) result result ;;
  result <- ufunc_out (Np.clip (of_int 0) (of_int 1)) result result ;;
  ret result.

(** [cscale(x, bias, contrast)], lines 43-62. *)
Definition cscale (x : array) (bias contrast : F) : M F array :=
  x <- ufunc_out (fun e => sub e bias) x x ;;
  x <- ufunc_out (fun e => mul e contrast) x x ;;
  x <- ufunc_out (fun e => add e lit_0_5) x x ;;
  x <- ufunc_out (Np.clip (of_int 0) (of_int 1)) x x ;;
  ret x.

(** [linear_warp], lines 65-66. *)
Definition linear_warp (x : array) (vmin vmax bias contrast : F) : M F array :=
  t <- norm x vmin vmax ;;
  cscale t bias contrast.

(** [x < vmin] on an array: a new array of booleans.  The heap keeps
    one buffer per array object and no dtype; [True] and [False] are
    kept as the numbers 1 and 0. *)
Definition less (x : array) (v : F) : M F array :=
  ufunc_new (fun e => if ltb e v then of_int 1 else of_int 0) x.

(** [log_warp], lines 69-79.  The mask [black] is computed and not
    used. *)
Definition log_warp (x : array) (vmin vmax bias contrast exp : F) : M F array :=
  black <- less x vmin ;;
  x <- norm x vmin vmax ;;
  x <- ufunc_out (fun e => mul exp e) x x ;;
  x <- ufunc_out (fun e => add e lit_1_001) x x ;;
  x <- ufunc_out f_log x x ;;
  x <- ufunc_out (fun e => div e (f_log (add exp (of_int 1)))) x x ;;
  x <- cscale x bias contrast ;;
  ret x.

(** [pow_warp], lines 82-88.  The division has no [out] and makes a
    new array. *)
Definition pow_warp (x : array) (vmin vmax bias contrast exp : F) : M F array :=
  x <- norm x vmin vmax ;;
  x <- ufunc_out (fun e => f_pow exp e) x x ;;
  x <- ufunc_out (fun e => sub e (of_int 1)) x x ;;
  x <- ufunc_new (fun e => div e (sub exp (of_int 1))) x ;;
  x <- cscale x bias contrast ;;
  ret x.

(** [sqrt_warp], lines 91-95. *)
Definition sqrt_warp (x : array) (vmin vmax bias contrast : F) : M F array :=
  x <- norm x vmin vmax ;;
  x <- ufunc_out f_sqrt x x ;;
  x <- cscale x bias contrast ;;
  ret x.

(** [squared_warp], lines 98-102. *)
Definition squared_warp (x : array) (vmin vmax bias contrast : F) : M F array :=
  x <- norm x vmin vmax ;;
  x <- ufunc_out (fun e => f_pow e (of_int 2)) x x ;;
  x <- cscale x bias contrast ;;
  ret x.

(** [asinh_warp], lines 105-109: three ufuncs nested in one
    statement, innermost first. *)
Definition asinh_warp (x : array) (vmin vmax bias contrast : F) : M F array :=
  x <- norm x vmin vmax ;;
  m <- ufunc_out (fun e => mul e (of_int 10)) x x ;;
  a <- ufunc_out f_arcsinh m x ;;
  x <- ufunc_out (fun e => div e (of_int 3)) a x ;;
  x <- cscale x bias contrast ;;
  ret x.

(** [sinh_warp], lines 112-116. *)
Definition sinh_warp (x : array) (vmin vmax bias contrast : F) : M F array :=
  x <- norm x vmin vmax ;;
  m <- ufunc_out (fun e => mul e (of_int 3)) x x ;;
  a <- ufunc_out f_sinh m x ;;
  x <- ufunc_out (fun e => div e (of_int 10)) a x ;;
  x <- cscale x bias contrast ;;
  ret x.

(** The default value of the keyword argument [exp]. *)
Definition exp_default : F := of_int 1000.

Definition warper : Type := array -> F -> F -> F -> F -> M F array.

(** The dictionary [warpers], lines 118-124, in insertion order.
    [normalize] calls a warper with five arguments, so [log_warp] and
    [pow_warp] run with [exp] at its default. *)
Definition warpers : list (string * warper) :=
  [ ("linear"%string, linear_warp);
    ("log"%string, fun x vmin vmax bias contrast =>
                     log_warp x vmin vmax bias contrast exp_default);
    ("sqrt"%string, sqrt_warp);
    ("power"%string, fun x vmin vmax bias contrast =>
                       pow_warp x vmin vmax bias contrast exp_default);
    ("squared"%string, squared_warp);
    ("arcsinh"%string, asinh_warp);
    ("sinh"%string, sinh_warp) ].

(** [warpers[stretch]], and [stretch in warpers] when it is [Some]. *)
Fixpoint dict_get {V : Type} (k : string) (d : list (string * V)) : option V :=
  match d with
  | [] => None
  | (k', v) :: d' => if String.eqb k k' then Some v else dict_get k d'
  end.

Definition dict_keys {V : Type} (d : list (string * V)) : list string :=
  fst <$> d.

(** [result.astype(np.uint8)]: a new array of bytes, returned by
    value. *)
Definition astype_uint8 (x : array) : M F (list Z) :=
  xs <- contents x ;;
  ret (Np.to_uint8 <$> xs).
End Norm.

(** ** Text of the exception *)

Module Message.
#[local] Open Scope string_scope.

(** [repr] of a string without quotes or escapes in it. *)
Definition repr_str (s : string) : string := "'" ++ s ++ "'".

Fixpoint join (sep : string) (l : list string) : string :=
  match l with
  | [] => EmptyString
  | [s] => s
  | s :: l' => s ++ sep ++ join sep l'
  end.

(** [str(d.keys())]: [dict_keys(['linear', 'log', ...])]. *)
Definition str_dict_keys (keys : list string) : string :=
  "dict_keys([" ++ join ", " (repr_str <$> keys) ++ "])".

(** The format on lines 153-154. *)
Definition invalid_stretch (stretch : string) (keys : list string) : string :=
  "Invalid stretch option " ++ stretch ++ ". Valid options are "
    ++ str_dict_keys keys.
End Message.

Section Normalize.
Context {F : Type} `{Scalar F}.

(** [normalize], lines 126-164. *)
Definition normalize (value : array) (vmin vmax bias contrast : F)
    (stretch : string) : M F (list Z) :=
  let inverted := leb vmax vmin in
  let hi := Py.max vmin vmax in
  let lo := Py.min vmin vmax in
  match dict_get stretch warpers with
  | None => raise (Message.invalid_stretch stretch (dict_keys (warpers (F:=F))))
  | Some warp =>
      result <- warp value lo hi bias contrast ;;
      result <- (if inverted
                 then ufunc_out (fun e => sub (of_int 1) e) result result
                 else ret result) ;;
      result <- ufunc_out (fun e => mul (of_int 255) e) result result ;;
      result <- ufunc_out (Np.clip (of_int 0) (of_int 255)) result result ;;
      astype_uint8 result
  end.

(** The defaults of the keyword arguments: [bias=.5], [contrast=1],
    [stretch='linear']. *)
Definition bias_default : F := lit_0_5.
Definition contrast_default : F := of_int 1.
Definition stretch_default : string := "linear".
End Normalize.

(** ** Instance: IEEE binary64 *)

Module Binary64.
#[local] Open Scope float_scope.

(** Conversion of a Python [int] (of small magnitude) to a float. *)
Definition of_Z (z : Z) : float :=
  if (z <? 0)%Z
  then PrimFloat.opp (PrimFloat.of_uint63 (Uint63.of_Z (- z)))
  else PrimFloat.of_uint63 (Uint63.of_Z z).

(** The C conversion of a double to an integer truncates toward zero.
    It is undefined on infinities and NaN; the usual hardware result
    has its low byte zero, which is all [astype(np.uint8)] keeps. *)
Definition trunc (x : float) : Z :=
  match Prim2SF x with
  | S754_finite s m e =>
      let v := if (0 <=? e)%Z then (Z.pos m * 2 ^ e)%Z
               else (Z.pos m / 2 ^ (- e))%Z in
      if s then (- v)%Z else v
  | _ => 0%Z
  end.

(** The transcendental functions of the C library are not part of
    this repository; they are parameters of the instance. *)
Record libm := {
  libm_log : float -> float;
  libm_pow : float -> float -> float;
  libm_sinh : float -> float;
  libm_asinh : float -> float
}.

Definition binary64 (L : libm) : Scalar float := {|
  of_int := of_Z;
  lit_0_5 := 0.5;
  lit_1_001 := 0x1.004189374bc6ap+0;
  add := PrimFloat.add;
  sub := PrimFloat.sub;
  mul := PrimFloat.mul;
  div := PrimFloat.div;
  ltb := PrimFloat.ltb;
  leb := PrimFloat.leb;
  isnan := PrimFloat.is_nan;
  f_sqrt := PrimFloat.sqrt;
  f_log := libm_log L;
  f_pow := libm_pow L;
  f_sinh := libm_sinh L;
  f_arcsinh := libm_asinh L;
  to_int := trunc
|}.
End Binary64.

(** A C library for the runs that call none of its functions (the
    linear and the square-root stretch): it answers NaN. *)
Definition libm_unused : Binary64.libm := {|
  Binary64.libm_log := fun _ => PrimFloat.nan;
  Binary64.libm_pow := fun _ _ => PrimFloat.nan;
  Binary64.libm_sinh := fun _ => PrimFloat.nan;
  Binary64.libm_asinh := fun _ => PrimFloat.nan
|}.

(** ** Instance: exact real arithmetic *)

Module Exact.
#[local] Open Scope R_scope.

Definition Rltb (x y : R) : bool := if Rlt_dec x y then true else false.
Definition Rleb (x y : R) : bool := if Rle_dec x y then true else false.

(** [pow] on a base that is not negative (the only bases the module
    produces: a clipped value or [exp]). *)
Definition pow (a b : R) : R :=
  if Req_dec_T a 0 then (if Req_dec_T b 0 then 1 else 0) else Rpower a b.

Definition trunc (x : R) : Z :=
  if Rle_dec 0 x then Int_part x else (- Int_part (- x))%Z.

(** Division is the total division of [R]; the results below that use
    this instance have a divisor that is not zero. *)
#[export] Instance exact : Scalar R := {|
  of_int := IZR;
  lit_0_5 := 0.5;
  lit_1_001 := 1.001;
  add := Rplus;
  sub := Rminus;
  mul := Rmult;
  div := Rdiv;
  ltb := Rltb;
  leb := Rleb;
  isnan := fun _ => false;
  f_sqrt := R_sqrt.sqrt;
  f_log := ln;
  f_pow := pow;
  f_sinh := sinh;
  f_arcsinh := arcsinh;
  to_int := trunc
|}.
End Exact.

(** ** Element-wise view of the module *)

(** What each function does to one element of its input.  These are
    stated in the words of the specification; the lemmas of section
    [Runs] prove that the code computes them. *)
Section Elementwise.
Context {F : Type} `{Scalar F}.

(** Normalizer: [clip((x - vmin) / (vmax - vmin), 0, 1)]. *)
Definition norm_elt (vmin vmax e : F) : F :=
  Np.clip (of_int 0) (of_int 1) (div (sub e (mul (of_int 1) vmin)) (sub vmax vmin)).

(** Contrast/bias adjuster: [clip((x - bias) * contrast + 0.5, 0, 1)]. *)
Definition cscale_elt (bias contrast e : F) : F :=
  Np.clip (of_int 0) (of_int 1) (add (mul (sub e bias) contrast) lit_0_5).

(** The warps of the table in section 4.3, on a normalized value [t]. *)
Definition linear_fn (t : F) : F := t.
Definition log_fn (exp t : F) : F :=
  div (f_log (add (mul exp t) lit_1_001)) (f_log (add exp (of_int 1))).
Definition pow_fn (exp t : F) : F :=
  div (sub (f_pow exp t) (of_int 1)) (sub exp (of_int 1)).
Definition sqrt_fn (t : F) : F := f_sqrt t.
Definition squared_fn (t : F) : F := f_pow t (of_int 2).
Definition asinh_fn (t : F) : F := div (f_arcsinh (mul t (of_int 10))) (of_int 3).
Definition sinh_fn (t : F) : F := div (f_sinh (mul t (of_int 3))) (of_int 10).

(** A stretch: normalize, warp, adjust. *)
Definition stretch_elt (g : F -> F) (vmin vmax bias contrast e : F) : F :=
  cscale_elt bias contrast (g (norm_elt vmin vmax e)).

(** The warp each name of the table stands for. *)
Definition warp_fns : list (string * (F -> F)) :=
  [ ("linear"%string, linear_fn);
    ("log"%string, log_fn exp_default);
    ("sqrt"%string, sqrt_fn);
    ("power"%string, pow_fn exp_default);
    ("squared"%string, squared_fn);
    ("arcsinh"%string, asinh_fn);
    ("sinh"%string, sinh_fn) ].

(** Final quantization: scale by 255, clip, convert to a byte. *)
Definition quantize_elt (r : F) : Z :=
  Np.to_uint8 (Np.clip (of_int 0) (of_int 255) (mul (of_int 255) r)).

Definition invert_elt (inverted : bool) (r : F) : F :=
  if inverted then sub (of_int 1) r else r.
End Elementwise.

(** ** The code computes the element-wise view *)

Section Runs.
Context {F : Type} `{Scalar F}.
Implicit Types (h : heap F) (x : array) (xs : list F).

Lemma bind_ok {A B} (c : M F A) (k : A -> M F B) h a h' :
  c h = (Ok a, h') -> bind c k h = k a h'.
Proof. intros E. unfold bind. now rewrite E. Qed.

Lemma ufunc_new_run f h x xs :
  h !! x = Some xs ->
  ufunc_new f x h = (Ok (length h), h ++ [f <$> xs]).
Proof. intros E. unfold ufunc_new. now rewrite E. Qed.

(** Overwriting the array allocated last. *)
Lemma ufunc_out_last f h xs :
  ufunc_out f (length h) (length h) (h ++ [xs])
  = (Ok (length h), h ++ [f <$> xs]).
Proof.
  unfold ufunc_out. rewrite list_lookup_middle by reflexivity. simpl.
  f_equal. rewrite insert_app_r_alt by lia.
  now rewrite Nat.sub_diag.
Qed.

Lemma ufunc_out_run f h x xs :
  h !! x = Some xs ->
  ufunc_out f x x h = (Ok x, <[x := f <$> xs]> h).
Proof. intros E. unfold ufunc_out. now rewrite E. Qed.

Lemma norm_run h x xs vmin vmax :
  h !! x = Some xs ->
  norm x vmin vmax h = (Ok (length h), h ++ [norm_elt vmin vmax <$> xs]).
Proof.
  intros E. unfold norm.
  rewrite (bind_ok _ _ _ _ _ (ufunc_new_run _ _ _ _ E)).
  rewrite (bind_ok _ _ _ _ _ (ufunc_out_last _ _ _)).
  rewrite (bind_ok _ _ _ _ _ (ufunc_out_last _ _ _)).
  unfold ret. do 2 f_equal. f_equal.
  rewrite <- !list_fmap_compose. reflexivity.
Qed.

(** [cscale] on the array allocated last. *)
Lemma cscale_last h xs bias contrast :
  cscale (length h) bias contrast (h ++ [xs])
  = (Ok (length h), h ++ [cscale_elt bias contrast <$> xs]).
Proof.
  unfold cscale.
  rewrite !(bind_ok _ _ _ _ _ (ufunc_out_last _ _ _)).
  unfold ret. do 2 f_equal. f_equal.
  rewrite <- !list_fmap_compose. reflexivity.
Qed.


(** What it means for a warper of the table to compute the warp [g]:
    started on a heap [h] in which [x] holds [xs], it returns a
    reference [r] to a buffer that did not exist in [h], holding the
    stretched values; the buffers of [h] (the caller's input among
    them) are as they were. *)
Definition computes (warp : warper) (g : F -> F) : Prop :=
  forall h x xs vmin vmax bias contrast,
    h !! x = Some xs ->
    exists r fresh,
      warp x vmin vmax bias contrast h = (Ok r, h ++ fresh)
      /\ (length h <= r)%nat
      /\ (h ++ fresh) !! r
         = Some (stretch_elt g vmin vmax bias contrast <$> xs).

Ltac last_buffer :=
  eexists (length _), [_]; split; [reflexivity|];
  split; [lia|]; rewrite list_lookup_middle by reflexivity;
  f_equal; rewrite <- ?list_fmap_compose; reflexivity.

Ltac step_last :=
  first [ rewrite (bind_ok _ _ _ _ _ (ufunc_out_last _ _ _))
        | rewrite (bind_ok _ _ _ _ _ (cscale_last _ _ _ _)) ].

Lemma linear_warp_run : computes linear_warp linear_fn.
Proof.
  intros h x xs vmin vmax bias contrast E. unfold linear_warp.
  rewrite (bind_ok _ _ _ _ _ (norm_run _ _ _ _ _ E)).
  rewrite cscale_last. last_buffer.
Qed.

Lemma log_warp_run exp :
  computes (fun x vmin vmax bias contrast =>
              log_warp x vmin vmax bias contrast exp) (log_fn exp).
Proof.
  intros h x xs vmin vmax bias contrast E. unfold log_warp, less.
  rewrite (bind_ok _ _ _ _ _ (ufunc_new_run _ _ _ _ E)).
  erewrite bind_ok; [|apply norm_run, lookup_app_l_Some, E].
  repeat step_last. unfold ret.
  eexists _, [_; _]. rewrite <- app_assoc. simpl.
  rewrite length_app. simpl length.
  split; [reflexivity|]. split; [lia|].
  rewrite (lookup_app_r h) by lia.
  replace (length h + 1 - length h)%nat with 1%nat by lia. simpl.
  f_equal. rewrite <- !list_fmap_compose. reflexivity.
Qed.

Lemma sqrt_warp_run : computes sqrt_warp sqrt_fn.
Proof.
  intros h x xs vmin vmax bias contrast E. unfold sqrt_warp.
  rewrite (bind_ok _ _ _ _ _ (norm_run _ _ _ _ _ E)).
  repeat step_last. unfold ret. last_buffer.
Qed.

Lemma squared_warp_run : computes squared_warp squared_fn.
Proof.
  intros h x xs vmin vmax bias contrast E. unfold squared_warp.
  rewrite (bind_ok _ _ _ _ _ (norm_run _ _ _ _ _ E)).
  repeat step_last. unfold ret. last_buffer.
Qed.

Lemma asinh_warp_run : computes asinh_warp asinh_fn.
Proof.
  intros h x xs vmin vmax bias contrast E. unfold asinh_warp.
  rewrite (bind_ok _ _ _ _ _ (norm_run _ _ _ _ _ E)).
  repeat step_last. unfold ret. last_buffer.
Qed.

Lemma sinh_warp_run : computes sinh_warp sinh_fn.
Proof.
  intros h x xs vmin vmax bias contrast E. unfold sinh_warp.
  rewrite (bind_ok _ _ _ _ _ (norm_run _ _ _ _ _ E)).
  repeat step_last. unfold ret. last_buffer.
Qed.

(** [pow_warp] allocates twice: the buffer of [norm], overwritten up
    to the subtraction, and the quotient, which [cscale] overwrites.
    [log_warp] allocates twice as well: the mask, and the buffer of
    [norm]. *)
Lemma pow_warp_run exp :
  computes (fun x vmin vmax bias contrast =>
              pow_warp x vmin vmax bias contrast exp) (pow_fn exp).
Proof.
  intros h x xs vmin vmax bias contrast E. unfold pow_warp.
  rewrite (bind_ok _ _ _ _ _ (norm_run _ _ _ _ _ E)).
  repeat step_last.
  erewrite bind_ok;
    [|apply ufunc_new_run, list_lookup_middle; reflexivity].
  pose proof (cscale_last (h ++ [(fun e => sub e (of_int 1))
                <$> ((fun e => f_pow exp e) <$> (norm_elt vmin vmax <$> xs))]))
    as C.
  rewrite length_app in C. simpl in C. rewrite length_app. simpl.
  rewrite (bind_ok _ _ _ _ _ (C _ _ _)). unfold ret.
  eexists _, [_; _]. rewrite <- app_assoc. simpl.
  split; [reflexivity|]. split; [lia|].
  rewrite (lookup_app_r h) by lia.
  replace (length h + 1 - length h)%nat with 1%nat by lia. simpl.
  f_equal. rewrite <- !list_fmap_compose. reflexivity.
Qed.

(** Every entry of [warpers] computes the warp of the same name. *)
Lemma warpers_run (stretch : string) (warp : warper) :
  dict_get stretch warpers = Some warp ->
  exists g, dict_get stretch warp_fns = Some g /\ computes warp g.
Proof.
  unfold warpers, warp_fns. simpl.
  repeat (destruct (String.eqb stretch _);
          [intros [= <-]; eexists; split; [reflexivity|];
           auto using linear_warp_run, log_warp_run, sqrt_warp_run,
             pow_warp_run, squared_warp_run, asinh_warp_run, sinh_warp_run
          |]).
  discriminate.
Qed.

Lemma warp_fns_keys (stretch : string) :
  dict_get stretch (warp_fns (F:=F)) = None
  <-> dict_get stretch (warpers (F:=F)) = None.
Proof.
  unfold warpers, warp_fns. simpl.
  repeat (destruct (String.eqb stretch _); [split; discriminate|]).
  split; reflexivity.
Qed.

(** [normalize] on a valid stretch name: the selected warper runs on
    [(value, lo, hi, bias, contrast)], its result is inverted when
    [vmax <= vmin], and quantized.  The buffers that existed before
    the call are unchanged. *)
Lemma normalize_run h value xs vmin vmax bias contrast stretch warp :
  h !! value = Some xs ->
  dict_get stretch warpers = Some warp ->
  exists g r fresh fresh',
    dict_get stretch warp_fns = Some g
    /\ warp value (Py.min vmin vmax) (Py.max vmin vmax) bias contrast h
       = (Ok r, h ++ fresh)
    /\ (h ++ fresh) !! r
       = Some (stretch_elt g (Py.min vmin vmax) (Py.max vmin vmax)
                 bias contrast <$> xs)
    /\ normalize value vmin vmax bias contrast stretch h
       = (Ok (quantize_elt <$>
                (invert_elt (leb vmax vmin) <$>
                   (stretch_elt g (Py.min vmin vmax) (Py.max vmin vmax)
                      bias contrast <$> xs))),
          h ++ fresh').
Proof.
  intros E W. destruct (warpers_run _ _ W) as (g & G & C).
  destruct (C h value xs (Py.min vmin vmax) (Py.max vmin vmax)
              bias contrast E) as (r & fresh & R & Hr & L).
  exists g, r, fresh. unfold normalize. rewrite W.
  rewrite (bind_ok _ _ _ _ _ R).
  assert (T : forall fr zs,
    (h ++ fr) !! r = Some zs ->
    (result <- ufunc_out (fun e => mul (of_int 255) e) r r ;;
     result <- ufunc_out (Np.clip (of_int 0) (of_int 255)) result result ;;
     astype_uint8 result) (h ++ fr)
    = (Ok (quantize_elt <$> zs),
       h ++ <[(r - length h)%nat :=
                Np.clip (of_int 0) (of_int 255) <$>
                  ((fun e => mul (of_int 255) e) <$> zs)]> fr)).
  { intros fr zs Z. pose proof (lookup_lt_Some _ _ _ Z) as Hlt.
    rewrite (bind_ok _ _ _ _ _ (ufunc_out_run _ _ _ _ Z)).
    erewrite bind_ok; [|apply ufunc_out_run, list_lookup_insert_eq, Hlt].
    rewrite list_insert_insert_eq.
    unfold astype_uint8, contents, bind, ret.
    rewrite list_lookup_insert_eq by exact Hlt. simpl.
    rewrite insert_app_r_alt by exact Hr.
    f_equal. f_equal. rewrite <- !list_fmap_compose. reflexivity. }
  destruct (leb vmax vmin); simpl.
  - rewrite (bind_ok _ _ _ _ _ (ufunc_out_run _ _ _ _ L)).
    pose proof (list_lookup_insert_eq _ _
                  ((fun e => sub (of_int 1) e) <$>
                     (stretch_elt g (Py.min vmin vmax) (Py.max vmin vmax)
                        bias contrast <$> xs))
                  (lookup_lt_Some _ _ _ L)) as L'.
    rewrite insert_app_r_alt in L' |- * by exact Hr.
    rewrite (T _ _ L'). eexists.
    split; [exact G|]. split; [exact R|]. split; [exact L|]. reflexivity.
  - unfold ret at 1. unfold bind at 1.
    rewrite (T _ _ L). eexists.
    split; [exact G|]. split; [exact R|]. split; [exact L|].
    now rewrite list_fmap_id.
Qed.

(** [normalize] on a name that is not a key of [warpers]. *)
Lemma normalize_raise h value vmin vmax bias contrast stretch :
  dict_get stretch (warpers (F:=F)) = None ->
  normalize value vmin vmax bias contrast stretch h
  = (Raise (Message.invalid_stretch stretch (dict_keys (warpers (F:=F)))), h).
Proof. intros W. unfold normalize. now rewrite W. Qed.
End Runs.

(** ** Facts about the exact instance *)

Section ExactFacts.
Import Exact.
#[local] Open Scope R_scope.

Lemma Rltb_true (x y : R) : Rltb x y = true <-> x < y.
Proof. unfold Rltb. destruct (Rlt_dec x y); split; (lra || discriminate || trivial). Qed.

Lemma Rltb_false (x y : R) : Rltb x y = false <-> y <= x.
Proof. unfold Rltb. destruct (Rlt_dec x y); split; (lra || discriminate || trivial). Qed.

Lemma Rleb_true (x y : R) : Rleb x y = true <-> x <= y.
Proof. unfold Rleb. destruct (Rle_dec x y); split; (lra || discriminate || trivial). Qed.

Lemma Rleb_false (x y : R) : Rleb x y = false <-> y < x.
Proof. unfold Rleb. destruct (Rle_dec x y); split; (lra || discriminate || trivial). Qed.

(** [np.clip] on reals is the usual clamp. *)
Lemma clip_cases (lo hi x : R) :
  lo <= hi ->
  (x <= lo /\ Np.clip lo hi x = lo)
  \/ (lo <= x <= hi /\ Np.clip lo hi x = x)
  \/ (hi <= x /\ Np.clip lo hi x = hi).
Proof.
  intros Hlh. unfold Np.clip, Np.minimum, Np.maximum. simpl.
  unfold Rltb.
  destruct (Rlt_dec lo x) as [L|L].
  - destruct (Rlt_dec x hi); [right; left|right; right]; split; lra.
  - destruct (Rlt_dec lo hi); [left; split; lra|].
    left; split; lra.
Qed.

Lemma clip_range (lo hi x : R) : lo <= hi -> lo <= Np.clip lo hi x <= hi.
Proof. intros Hlh. destruct (clip_cases lo hi x Hlh) as [[? ->]|[[? ->]|[? ->]]]; lra. Qed.

Lemma clip_inside (lo hi x : R) : lo <= x <= hi -> Np.clip lo hi x = x.
Proof.
  intros Hx. assert (Hlh : lo <= hi) by lra.
  destruct (clip_cases lo hi x Hlh) as [[? ->]|[[? ->]|[? ->]]]; lra.
Qed.

(** The integer part of a real between two consecutive integers. *)
Lemma Int_part_between (x : R) (n : Z) :
  IZR n <= x < IZR n + 1 -> Int_part x = n.
Proof. intros Hx. symmetry. apply Int_part_spec. lra. Qed.

Lemma Int_part_bounds (x : R) : IZR (Int_part x) <= x < IZR (Int_part x) + 1.
Proof. destruct (base_Int_part x). lra. Qed.

(** On a stretch result in [0, 1] the quantization is the floor of
    [255 * r]. *)
Lemma quantize_floor (r : R) :
  0 <= r <= 1 -> quantize_elt r = Int_part (255 * r).
Proof.
  intros Hr. unfold quantize_elt, Np.to_uint8. simpl.
  rewrite clip_inside by lra.
  unfold trunc. destruct (Rle_dec 0 (255 * r)) as [_|N]; [|lra].
  pose proof (Int_part_bounds (255 * r)) as B.
  apply Z.mod_small. split.
  - apply le_IZR. apply Rnot_lt_le. intros C.
    apply lt_IZR in C. assert (Int_part (255 * r) <= -1)%Z as C' by lia.
    apply IZR_le in C'. lra.
  - apply lt_IZR. lra.
Qed.

(** The adjuster, and so every stretch, ends in [0, 1]. *)
Lemma cscale_elt_range (bias contrast e : R) :
  0 <= cscale_elt bias contrast e <= 1.
Proof. unfold cscale_elt. apply clip_range. simpl. lra. Qed.

Lemma stretch_elt_range (g : R -> R) (vmin vmax bias contrast e : R) :
  0 <= stretch_elt g vmin vmax bias contrast e <= 1.
Proof. apply cscale_elt_range. Qed.

End ExactFacts.

(** ** The normalizer and the adjuster in exact arithmetic *)

Section ExactLinear.
Import Exact.
#[local] Open Scope R_scope.

Lemma norm_elt_exact (vmin vmax e : R) :
  norm_elt vmin vmax e = Np.clip 0 1 ((e - vmin) / (vmax - vmin)).
Proof. unfold norm_elt. simpl. now rewrite Rmult_1_l. Qed.

Lemma cscale_elt_exact (bias contrast e : R) :
  cscale_elt bias contrast e = Np.clip 0 1 ((e - bias) * contrast + 0.5).
Proof. reflexivity. Qed.

End ExactLinear.

(** ** The dispatcher *)

Section Dispatcher.
Import Exact.
#[local] Open Scope R_scope.

Lemma py_min_cases (a b : R) :
  (b < a /\ Py.min a b = b) \/ (a <= b /\ Py.min a b = a).
Proof.
  unfold Py.min. simpl. unfold Rltb.
  destruct (Rlt_dec b a); [left|right]; split; lra.
Qed.

Lemma py_max_cases (a b : R) :
  (a < b /\ Py.max a b = b) \/ (b <= a /\ Py.max a b = a).
Proof.
  unfold Py.max. simpl. unfold Rltb.
  destruct (Rlt_dec a b); [left|right]; split; lra.
Qed.

Lemma invert_elt_range (inverted : bool) (r : R) :
  0 <= r <= 1 -> 0 <= invert_elt inverted r <= 1.
Proof. intros Hr. destruct inverted; simpl; lra. Qed.

(** C1 (as stated) fails: with [vmin = vmax = 0] the bounds passed to
    the warper are [lo = hi = 0], in exact arithmetic and in binary64
    alike. *)
Lemma normalize_bounds_not_strict :
  (normalize 0%nat 0 0 0.5 1 "linear" [[0; 2]]
   = (result <- linear_warp 0%nat (Py.min 0 0) (Py.max 0 0) 0.5 1 ;;
      result <- ufunc_out (fun e => sub (of_int 1) e) result result ;;
      result <- ufunc_out (fun e => mul (of_int 255) e) result result ;;
      result <- ufunc_out (Np.clip (of_int 0) (of_int 255)) result result ;;
      astype_uint8 result) [[0; 2]]
   /\ Py.min (0 : R) 0 = 0 /\ Py.max (0 : R) 0 = 0
   /\ ~ (Py.min (0 : R) 0 < Py.max (0 : R) 0))
  /\ (normalize (H := Binary64.binary64 libm_unused) 0%nat 0%float 0%float
        0.5%float 1%float "linear" [[0%float; 2%float]]
      = (result <- linear_warp (H := Binary64.binary64 libm_unused) 0%nat
                     (Py.min (H := Binary64.binary64 libm_unused)
                        0%float 0%float)
                     (Py.max (H := Binary64.binary64 libm_unused)
                        0%float 0%float)
                     0.5%float 1%float ;;
         result <- ufunc_out (fun e => (1 - e)%float) result result ;;
         result <- ufunc_out (fun e => (255 * e)%float) result result ;;
         result <- ufunc_out
                     (Np.clip (H := Binary64.binary64 libm_unused)
                        0%float 255%float) result result ;;
         astype_uint8 (H := Binary64.binary64 libm_unused) result)
          [[0%float; 2%float]]
      /\ Py.min (H := Binary64.binary64 libm_unused) 0%float 0%float
         = 0%float
      /\ Py.max (H := Binary64.binary64 libm_unused) 0%float 0%float
         = 0%float
      /\ (Py.min (H := Binary64.binary64 libm_unused) 0%float 0%float
          <? Py.max (H := Binary64.binary64 libm_unused) 0%float 0%float)%float
         = false).
Proof.
  split; [split|].
  - unfold normalize. simpl dict_get. cbv beta iota zeta.
    replace (leb (0 : R) 0) with true; [reflexivity|].
    symmetry. apply Rleb_true. lra.
  - destruct (py_min_cases 0 0) as [[? ->]|[? ->]],
             (py_max_cases 0 0) as [[? ->]|[? ->]]; repeat split; lra.
  - split; [reflexivity|]. split; [reflexivity|].
    split; [reflexivity|]. vm_compute. reflexivity.
Qed.
End Dispatcher.

Section ExactQuantization.
Import Exact.
#[local] Open Scope R_scope.

(** [normalize] in exact arithmetic, in terms of the stretch result. *)
Lemma normalize_floor (h : heap R) (value : array) (xs : list R)
    (vmin vmax bias contrast : R) (stretch : string) (warp : warper) :
  h !! value = Some xs ->
  dict_get stretch warpers = Some warp ->
  exists g rs fresh',
    dict_get stretch warp_fns = Some g
    /\ rs = invert_elt (leb vmax vmin) <$>
              (stretch_elt g (Py.min vmin vmax) (Py.max vmin vmax)
                 bias contrast <$> xs)
    /\ Forall (fun r => 0 <= r <= 1) rs
    /\ normalize value vmin vmax bias contrast stretch h
       = (Ok ((fun r => Int_part (255 * r)) <$> rs), h ++ fresh').
Proof.
  intros E W.
  destruct (normalize_run h value xs vmin vmax bias contrast stretch warp E W)
    as (g & r & fresh & fresh' & G & R & L & N).
  exists g. eexists. exists fresh'.
  split; [exact G|]. split; [reflexivity|].
  assert (B : Forall (fun r => 0 <= r <= 1)
                (invert_elt (leb vmax vmin) <$>
                   (stretch_elt g (Py.min vmin vmax) (Py.max vmin vmax)
                      bias contrast <$> xs))).
  { rewrite Forall_fmap, Forall_fmap. apply Forall_forall. intros e _.
    simpl. apply invert_elt_range, stretch_elt_range. }
  split; [exact B|].
  rewrite N. f_equal. f_equal.
  apply list_fmap_ext. intros i e Hi.
  rewrite Forall_lookup in B. apply quantize_floor, (B i e Hi).
Qed.

End ExactQuantization.

(** ** Default arguments *)

Section Defaults.
Import Exact.
#[local] Open Scope R_scope.

Lemma stretch_linear_unit (e : R) :
  stretch_elt linear_fn (Py.min 0 1) (Py.max 0 1) 0.5 1 e = Np.clip 0 1 e.
Proof.
  destruct (py_min_cases 0 1) as [[? _]|[_ ->]]; [lra|].
  destruct (py_max_cases 0 1) as [[_ ->]|[? _]]; [|lra].
  unfold stretch_elt, linear_fn. rewrite cscale_elt_exact, norm_elt_exact.
  replace ((e - 0) / (1 - 0)) with e by (field; lra).
  pose proof (clip_range 0 1 e) as B.
  rewrite (clip_inside 0 1 ((Np.clip 0 1 e - 0.5) * 1 + 0.5)) by lra. lra.
Qed.

Lemma leb_1_0 : leb (1 : R) 0 = false.
Proof. apply Rleb_false. lra. Qed.

(** [normalize(value, 0, 1)] with the default bias, contrast and
    stretch. *)
Lemma normalize_default_run (h : heap R) (value : array) (xs : list R) :
  h !! value = Some xs ->
  exists fresh,
    normalize value 0 1 bias_default contrast_default stretch_default h
    = (Ok ((fun x => Int_part (255 * Np.clip 0 1 x)) <$> xs), h ++ fresh).
Proof.
  intros E.
  destruct (normalize_floor h value xs 0 1 0.5 1 "linear" linear_warp E eq_refl)
    as (g & rs & fresh & G & -> & _ & N).
  injection G as <-. exists fresh.
  change bias_default with 0.5. change contrast_default with 1.
  change stretch_default with "linear"%string.
  rewrite N. f_equal. f_equal. rewrite leb_1_0.
  rewrite <- !list_fmap_compose. apply list_fmap_ext. intros i e _. simpl.
  now rewrite stretch_linear_unit.
Qed.

Lemma default_on_0_half_1 :
  (fun x => Int_part (255 * Np.clip 0 1 x)) <$> [0; 0.5; 1]
  = [0%Z; 127%Z; 255%Z].
Proof.
  simpl. rewrite !clip_inside by lra.
  repeat f_equal; apply Int_part_between; lra.
Qed.

(** C4 (as stated) fails: on [0, 0.5, 1] the output is [0, 127, 255];
    its first element is neither 127 nor 128 and its second neither 191
    nor 192.  This is so in exact arithmetic and in binary64 alike. *)
Lemma normalize_default_not_offset :
  (~ exists a b fresh,
       normalize 0%nat 0 1 bias_default contrast_default stretch_default
         [[0; 0.5; 1]]
       = (Ok [a; b; 255%Z], fresh)
       /\ (a = 127 \/ a = 128)%Z /\ (b = 191 \/ b = 192)%Z)
  /\ (~ exists a b fresh,
        normalize (H := Binary64.binary64 libm_unused) 0%nat 0%float 1%float
          (bias_default (H := Binary64.binary64 libm_unused))
          (contrast_default (H := Binary64.binary64 libm_unused))
          stretch_default [[0%float; 0.5%float; 1%float]]
        = (Ok [a; b; 255%Z], fresh)
        /\ (a = 127 \/ a = 128)%Z /\ (b = 191 \/ b = 192)%Z).
Proof.
  split.
  - intros (a & b & fresh & N & Ha & Hb).
    destruct (normalize_default_run [[0; 0.5; 1]] 0%nat [0; 0.5; 1] eq_refl)
      as (fresh' & N').
    rewrite N', default_on_0_half_1 in N. injection N as <- <- _. lia.
  - intros (a & b & fresh & N & Ha & Hb).
    assert (N' : normalize (H := Binary64.binary64 libm_unused) 0%nat
                   0%float 1%float
                   (bias_default (H := Binary64.binary64 libm_unused))
                   (contrast_default (H := Binary64.binary64 libm_unused))
                   stretch_default [[0%float; 0.5%float; 1%float]]
                 = (Ok [0%Z; 127%Z; 255%Z],
                    [[0%float; 0.5%float; 1%float];
                     [0%float; 127.5%float; 255%float]]))
      by (vm_compute; reflexivity).
    rewrite N' in N. injection N as <- <- _. lia.
Qed.

End Defaults.

(** ** The error path *)

Section Text.
#[local] Open Scope string_scope.

(** [sub] occurs in [s]. *)
Definition contains (sub s : string) : Prop :=
  exists pre post, s = pre ++ sub ++ post.

Lemma string_app_assoc (a b c : string) : (a ++ b) ++ c = a ++ b ++ c.
Proof. induction a as [|ch a IH]; simpl; [reflexivity|now rewrite IH]. Qed.

Lemma string_app_empty_r (a : string) : a ++ EmptyString = a.
Proof. induction a as [|ch a IH]; simpl; [reflexivity|now rewrite IH]. Qed.

Lemma contains_refl (s : string) : contains s s.
Proof. exists EmptyString, EmptyString. simpl. now rewrite string_app_empty_r. Qed.

Lemma contains_app_l (sub p s : string) : contains sub s -> contains sub (p ++ s).
Proof.
  intros (pre & post & ->). exists (p ++ pre), post.
  now rewrite string_app_assoc.
Qed.

Lemma contains_app_r (sub s p : string) : contains sub s -> contains sub (s ++ p).
Proof.
  intros (pre & post & ->). exists pre, (post ++ p).
  now rewrite !string_app_assoc.
Qed.

Lemma contains_trans (a b c : string) : contains a b -> contains b c -> contains a c.
Proof.
  intros (p1 & q1 & ->) (p2 & q2 & ->). exists (p2 ++ p1), (q1 ++ q2).
  now rewrite !string_app_assoc.
Qed.

Lemma join_contains (sep n : string) (l : list string) :
  In n l -> contains n (Message.join sep l).
Proof.
  induction l as [|s l IH]; [intros []|].
  intros [->|Hin].
  - destruct l; simpl; [apply contains_refl|apply contains_app_r, contains_refl].
  - destruct l as [|s' l]; [destruct Hin|].
    change (Message.join sep (s :: s' :: l))
      with (s ++ sep ++ Message.join sep (s' :: l)).
    apply contains_app_l, contains_app_l, IH, Hin.
Qed.

(** The message names the offending value and lists the keys. *)
Lemma invalid_stretch_contents (stretch : string) (keys : list string) :
  contains stretch (Message.invalid_stretch stretch keys)
  /\ contains (Message.str_dict_keys keys) (Message.invalid_stretch stretch keys)
  /\ forall n, In n keys -> contains n (Message.invalid_stretch stretch keys).
Proof.
  unfold Message.invalid_stretch. split; [|split].
  - apply contains_app_l, contains_app_r, contains_refl.
  - apply contains_app_l, contains_app_l, contains_app_l, contains_refl.
  - intros n Hn. do 3 apply contains_app_l. unfold Message.str_dict_keys.
    apply contains_app_l, contains_app_r.
    apply contains_trans with (Message.repr_str n).
    + unfold Message.repr_str. apply contains_app_l, contains_app_r, contains_refl.
    + apply join_contains, in_map, Hn.
Qed.

Lemma dict_get_None {V : Type} (k : string) (d : list (string * V)) :
  dict_get k d = None <-> ~ In k (dict_keys d).
Proof.
  induction d as [|[k' v] d IH]; simpl; [tauto|].
  destruct (String.eqb_spec k k') as [->|N].
  - split; [discriminate|]. intros C. exfalso. apply C. now left.
  - rewrite IH. unfold dict_keys. simpl. split.
    + intros C [E|I]; [now apply N|now apply C].
    + intros C I. apply C. now right.
Qed.
End Text.

Section ErrorClaims.
Context {F : Type} `{Scalar F}.

(** The seven recognized stretch names. *)
Definition stretch_names : list string :=
  [ "linear"; "log"; "sqrt"; "power"; "squared"; "arcsinh"; "sinh" ]%string.

Lemma warpers_keys : dict_keys (warpers (F:=F)) = stretch_names.
Proof. reflexivity. Qed.

(** No warper raises, whatever the heap and the arguments. *)
Lemma warpers_total (stretch : string) (warp : warper) :
  dict_get stretch warpers = Some warp ->
  forall (h : heap F) x vmin vmax bias contrast,
  exists r h', warp x vmin vmax bias contrast h = (Ok r, h').
Proof.
  unfold warpers. simpl.
  repeat (destruct (String.eqb stretch _);
          [intros [= <-]; intros; eexists; eexists; reflexivity|]).
  discriminate.
Qed.

(** A computation that never shrinks the heap, and one that makes it
    longer. *)
Definition extends {A} (c : M F A) : Prop :=
  forall h, (length h <= length (snd (c h)))%nat.

Definition allocates {A} (c : M F A) : Prop :=
  forall h, (length h < length (snd (c h)))%nat.

Lemma bind_extends {A B} (c : M F A) (k : A -> M F B) :
  extends c -> (forall a, extends (k a)) -> extends (bind c k).
Proof.
  intros Hc Hk h. unfold bind. specialize (Hc h).
  destruct (c h) as [[a|msg] h']; simpl in *; [|exact Hc].
  specialize (Hk a h'). lia.
Qed.

Lemma bind_allocates {A B} (c : M F A) (k : A -> M F B) :
  allocates c -> (forall a, extends (k a)) -> allocates (bind c k).
Proof.
  intros Hc Hk h. unfold bind. specialize (Hc h).
  destruct (c h) as [[a|msg] h']; simpl in *; [|exact Hc].
  specialize (Hk a h'). lia.
Qed.

Lemma ret_extends {A} (a : A) : extends (ret a).
Proof. intros h. simpl. lia. Qed.

Lemma ufunc_out_extends f x out : extends (ufunc_out f x out).
Proof. intros h. unfold ufunc_out. simpl. rewrite length_insert. lia. Qed.

Lemma ufunc_new_extends f x : extends (ufunc_new f x).
Proof. intros h. unfold ufunc_new. simpl. rewrite length_app. lia. Qed.

Lemma ufunc_new_allocates f x : allocates (ufunc_new f x).
Proof. intros h. unfold ufunc_new. simpl. rewrite length_app. simpl. lia. Qed.

Lemma less_allocates x v : allocates (less x v).
Proof. unfold less. apply ufunc_new_allocates. Qed.

Ltac warp_extends :=
  repeat lazymatch goal with
         | |- extends (bind _ _) => apply bind_extends; [|intro; cbv beta]
         | |- extends (ret _) => apply ret_extends
         | |- extends (ufunc_out _ _ _) => apply ufunc_out_extends
         | |- extends (ufunc_new _ _) => apply ufunc_new_extends
         end.

Lemma cscale_extends x bias contrast : extends (cscale x bias contrast).
Proof. unfold cscale. warp_extends. Qed.

Lemma norm_allocates x vmin vmax : allocates (norm x vmin vmax).
Proof.
  unfold norm. apply bind_allocates; [apply ufunc_new_allocates|intro].
  warp_extends.
Qed.

Ltac warp_allocates :=
  apply bind_allocates;
  [apply norm_allocates
  |intro; cbv beta;
   repeat lazymatch goal with
          | |- extends (bind _ _) => apply bind_extends; [|intro; cbv beta]
          | |- extends (ret _) => apply ret_extends
          | |- extends (ufunc_out _ _ _) => apply ufunc_out_extends
          | |- extends (ufunc_new _ _) => apply ufunc_new_extends
          | |- extends (cscale _ _ _) => apply cscale_extends
          end].

Lemma log_warp_allocates x vmin vmax bias contrast exp :
  allocates (log_warp x vmin vmax bias contrast exp).
Proof.
  unfold log_warp.
  apply bind_allocates; [apply less_allocates|intro; cbv beta].
  apply bind_extends; [unfold norm; warp_extends|intro; cbv beta].
  repeat lazymatch goal with
         | |- extends (bind _ _) => apply bind_extends; [|intro; cbv beta]
         | |- extends (ret _) => apply ret_extends
         | |- extends (ufunc_out _ _ _) => apply ufunc_out_extends
         | |- extends (cscale _ _ _) => apply cscale_extends
         end.
Qed.

Lemma linear_warp_allocates x vmin vmax bias contrast :
  allocates (linear_warp x vmin vmax bias contrast).
Proof. unfold linear_warp. warp_allocates. Qed.

Lemma pow_warp_allocates x vmin vmax bias contrast exp :
  allocates (pow_warp x vmin vmax bias contrast exp).
Proof. unfold pow_warp. warp_allocates. Qed.

Lemma sqrt_warp_allocates x vmin vmax bias contrast :
  allocates (sqrt_warp x vmin vmax bias contrast).
Proof. unfold sqrt_warp. warp_allocates. Qed.

Lemma squared_warp_allocates x vmin vmax bias contrast :
  allocates (squared_warp x vmin vmax bias contrast).
Proof. unfold squared_warp. warp_allocates. Qed.

Lemma asinh_warp_allocates x vmin vmax bias contrast :
  allocates (asinh_warp x vmin vmax bias contrast).
Proof. unfold asinh_warp. warp_allocates. Qed.

Lemma sinh_warp_allocates x vmin vmax bias contrast :
  allocates (sinh_warp x vmin vmax bias contrast).
Proof. unfold sinh_warp. warp_allocates. Qed.

(** Every warper allocates: the heap is longer after it has run. *)
Lemma warpers_allocate (stretch : string) (warp : warper) :
  dict_get stretch warpers = Some warp ->
  forall x vmin vmax bias contrast,
    allocates (warp x vmin vmax bias contrast).
Proof.
  unfold warpers. simpl.
  destruct (String.eqb stretch _);
    [intros [= <-]; exact linear_warp_allocates|].
  destruct (String.eqb stretch _);
    [intros [= <-]; intros; exact (log_warp_allocates _ _ _ _ _ _)|].
  destruct (String.eqb stretch _);
    [intros [= <-]; exact sqrt_warp_allocates|].
  destruct (String.eqb stretch _);
    [intros [= <-]; intros; exact (pow_warp_allocates _ _ _ _ _ _)|].
  destruct (String.eqb stretch _);
    [intros [= <-]; exact squared_warp_allocates|].
  destruct (String.eqb stretch _);
    [intros [= <-]; exact asinh_warp_allocates|].
  destruct (String.eqb stretch _);
    [intros [= <-]; exact sinh_warp_allocates|].
  discriminate.
Qed.

Lemma normalize_total (h : heap F) (value : array)
    (vmin vmax bias contrast : F) (stretch : string) (warp : warper) :
  dict_get stretch warpers = Some warp ->
  exists out h', normalize value vmin vmax bias contrast stretch h = (Ok out, h').
Proof.
  intros W. unfold normalize. rewrite W.
  destruct (warpers_total _ _ W h value (Py.min vmin vmax) (Py.max vmin vmax)
              bias contrast) as (r & h' & R).
  rewrite (bind_ok _ _ _ _ _ R).
  destruct (leb vmax vmin); eexists; eexists; reflexivity.
Qed.

(** C2: [normalize] raises exactly when [stretch] is not one of the
    seven recognized names; the message then contains the offending
    value, the printed list of the valid names and each valid name; for
    a recognized name it returns an array, whatever the numbers in the
    input, the bounds, the bias and the contrast (in any instance of the
    arithmetic, so also on infinities and NaN). *)
Theorem normalize_raises_iff_invalid (h : heap F) (value : array)
    (vmin vmax bias contrast : F) (stretch : string) :
  ((exists msg h', normalize value vmin vmax bias contrast stretch h
                   = (Raise msg, h'))
   <-> ~ In stretch stretch_names)
  /\ (forall msg h', normalize value vmin vmax bias contrast stretch h
                     = (Raise msg, h') ->
        msg = Message.invalid_stretch stretch stretch_names
        /\ contains stretch msg
        /\ contains (Message.str_dict_keys stretch_names) msg
        /\ forall n, In n stretch_names -> contains n msg)
  /\ (In stretch stretch_names ->
      exists out h', normalize value vmin vmax bias contrast stretch h
                     = (Ok out, h')).
Proof.
  destruct (dict_get stretch (warpers (F:=F))) as [warp|] eqn:W.
  - assert (I : In stretch stretch_names).
    { destruct (in_dec string_dec stretch stretch_names) as [I|N]; [exact I|].
      rewrite <- warpers_keys in N. apply dict_get_None in N. congruence. }
    destruct (normalize_total h value vmin vmax bias contrast stretch warp W)
      as (out & h' & N).
    split; [|split].
    + split; [intros (msg & h'' & R); congruence|intros C; contradiction].
    + intros msg h'' R. congruence.
    + intros _. eauto.
  - pose proof (normalize_raise h value vmin vmax bias contrast stretch W) as R.
    rewrite warpers_keys in R.
    assert (N : ~ In stretch stretch_names).
    { rewrite <- warpers_keys. now apply dict_get_None. }
    split; [|split].
    + split; [intros _; exact N|intros _; eauto].
    + intros msg h' R'. rewrite R in R'. injection R' as <- <-.
      split; [reflexivity|]. apply invalid_stretch_contents.
    + intros I. contradiction.
Qed.

(** C9: on an invalid stretch name [normalize] raises with the heap
    exactly as it was: no buffer is written, the caller's input among
    them, and none is allocated.  Every warper of the table allocates
    when it runs, so none has run. *)
Theorem invalid_stretch_leaves_heap (h : heap F) (value : array)
    (vmin vmax bias contrast : F) (stretch : string) :
  ~ In stretch stretch_names ->
  (exists msg,
     normalize value vmin vmax bias contrast stretch h = (Raise msg, h))
  /\ snd (normalize value vmin vmax bias contrast stretch h) !! value
     = h !! value
  /\ forall name warp, dict_get name warpers = Some warp ->
       forall x lo hi b c,
         snd (warp x lo hi b c h)
         <> snd (normalize value vmin vmax bias contrast stretch h).
Proof.
  intros N. rewrite <- warpers_keys in N. apply dict_get_None in N.
  pose proof (normalize_raise h value vmin vmax bias contrast stretch N) as R.
  rewrite R. simpl. split; [eauto|]. split; [reflexivity|].
  intros name warp W x lo hi b c E.
  pose proof (warpers_allocate name warp W x lo hi b c h) as A.
  rewrite E in A. lia.
Qed.
End ErrorClaims.

Section ErrorWitnesses.
Import Exact.

Lemma bogus_not_a_stretch : ~ In "bogus"%string stretch_names.
Proof. unfold stretch_names. simpl. intuition discriminate. Qed.

Lemma normalize_raises_iff_invalid_witness :
  ((exists msg h', normalize (F:=R) 0%nat 0%R 1%R 0.5%R 1%R "bogus" [[0%R; 1%R]]
                   = (Raise msg, h'))
   <-> ~ In "bogus"%string stretch_names)
  /\ (forall msg h', normalize (F:=R) 0%nat 0%R 1%R 0.5%R 1%R "bogus" [[0%R; 1%R]]
                     = (Raise msg, h') ->
        msg = Message.invalid_stretch "bogus" stretch_names
        /\ contains "bogus" msg
        /\ contains (Message.str_dict_keys stretch_names) msg
        /\ forall n, In n stretch_names -> contains n msg)
  /\ (In "bogus"%string stretch_names ->
      exists out h', normalize (F:=R) 0%nat 0%R 1%R 0.5%R 1%R "bogus" [[0%R; 1%R]]
                     = (Ok out, h')).
Proof.
  exact (normalize_raises_iff_invalid (F:=R) [[0%R; 1%R]] 0%nat 0%R 1%R 0.5%R 1%R
           "bogus").
Defined.

Lemma invalid_stretch_leaves_heap_witness :
  (exists msg,
     normalize (F:=R) 0%nat 0%R 1%R 0.5%R 1%R "bogus" [[0%R; 1%R]]
     = (Raise msg, [[0%R; 1%R]]))
  /\ snd (normalize (F:=R) 0%nat 0%R 1%R 0.5%R 1%R "bogus" [[0%R; 1%R]]) !! 0%nat
     = [[0%R; 1%R]] !! 0%nat
  /\ forall name warp, dict_get name warpers = Some warp ->
       forall x lo hi b c,
         snd (warp x lo hi b c [[0%R; 1%R]])
         <> snd (normalize (F:=R) 0%nat 0%R 1%R 0.5%R 1%R "bogus" [[0%R; 1%R]]).
Proof.
  apply (invalid_stretch_leaves_heap (F:=R) [[0%R; 1%R]] 0%nat 0%R 1%R 0.5%R 1%R
           "bogus").
  unfold stretch_names. simpl. intuition discriminate.
Defined.

End ErrorWitnesses.

(** ** The log stretch *)

Section LogStretch.
Import Exact.
#[local] Open Scope R_scope.



End LogStretch.

(** ** Running the code in binary64 *)

(** The examples below run the code on IEEE binary64 numbers, whatever
    the C library computes for the transcendental functions. *)
Section Binary64Examples.
Variable L : Binary64.libm.
#[local] Existing Instance Binary64.binary64.
#[local] Open Scope float_scope.

Let run_normalize := normalize (H := Binary64.binary64 L).

Example binary64_default_linear :
  run_normalize 0%nat 0 1 0.5 1 "linear" [[0; 0.5; 1]]
  = (Ok [0%Z; 127%Z; 255%Z], [[0; 0.5; 1]; [0; 127.5; 255]]).
Proof. vm_compute. reflexivity. Qed.

Example binary64_inverted_linear :
  run_normalize 0%nat 1 0 0.5 1 "linear" [[0; 0.25; 0.5; 1]]
  = (Ok [255%Z; 191%Z; 127%Z; 0%Z],
     [[0; 0.25; 0.5; 1]; [255; 191.25; 127.5; 0]])
  /\ fst (run_normalize 0%nat 0 1 0.5 1 "linear" [[0; 0.25; 0.5; 1]])
     = Ok [0%Z; 63%Z; 127%Z; 255%Z].
Proof. split; vm_compute; reflexivity. Qed.

Example binary64_sqrt :
  fst (run_normalize 0%nat 0 4 0.5 1 "sqrt" [[0; 1; 4; 9]])
  = Ok [0%Z; 127%Z; 255%Z; 255%Z].
Proof. vm_compute. reflexivity. Qed.

Example binary64_invalid_stretch :
  run_normalize 0%nat 0 1 0.5 1 "bogus" [[0; 0.5; 1]]
  = (Raise "Invalid stretch option bogus. Valid options are dict_keys(['linear', 'log', 'sqrt', 'power', 'squared', 'arcsinh', 'sinh'])",
     [[0; 0.5; 1]]).
Proof. vm_compute. reflexivity. Qed.

(** With [vmin = vmax] the division in [norm] is by zero: the buffer
    holds NaN for [0 / 0] and the clipped infinity elsewhere. *)
Example binary64_zero_range :
  norm (H := Binary64.binary64 L) 0%nat 0 0 [[0; 2; -2]]
  = (Ok 1%nat, [[0; 2; -2]; [nan; 1; 0]])
  /\ fst (run_normalize 0%nat 0 0 0.5 1 "linear" [[0; 2; -2]])
     = Ok [0%Z; 0%Z; 255%Z].
Proof. split; vm_compute; reflexivity. Qed.

(** The quantization truncates in binary64 as well: the largest double
    below 1 gives 254. *)
Example binary64_quantize :
  quantize_elt (H := Binary64.binary64 L) <$> [0; 0.5; 0x1.fffffffffffffp-1; 1]
  = [0%Z; 127%Z; 254%Z; 255%Z].
Proof. vm_compute. reflexivity. Qed.

(** Rounding: at the default bias and contrast [cscale] returns 0.25
    as it is, and 0.1 (the double nearest to it) to within one unit in
    the last place. *)
Example binary64_adjuster_rounds :
  cscale (H := Binary64.binary64 L) 0%nat 0.5 1
    [[0; 0.25; 1; 0x1.999999999999ap-4]]
  = (Ok 0%nat, [[0; 0.25; 1; 0x1.9999999999998p-4]]).
Proof. vm_compute. reflexivity. Qed.
End Binary64Examples.

(** ** Order and range in binary64 *)

(** Order facts of binary64 comparisons, from the specification of the
    primitive operations. *)
Section Binary64Order.
#[local] Open Scope float_scope.

Lemma SFcompare_antisym (a b : spec_float) (c : comparison) :
  SFcompare a b = Some c -> SFcompare b a = Some (CompOpp c).
Proof.
  destruct a as [sa|sa| |sa ma ea], b as [sb|sb| |sb mb eb]; simpl;
    try discriminate; intros [= <-]; f_equal;
    try (destruct sa; reflexivity); try (destruct sb; reflexivity);
    try (destruct sa, sb; reflexivity).
  destruct sa, sb; try reflexivity;
    rewrite (Z.compare_antisym ea eb);
    destruct (ea ?= eb)%Z; simpl; try reflexivity;
    rewrite (ZC4 ma mb); try reflexivity.
  all: try now rewrite CompOpp_involutive.
Qed.

Lemma SFcompare_None (a b : spec_float) :
  SFcompare a b = None -> a = S754_nan \/ b = S754_nan.
Proof.
  destruct a as [sa|sa| |sa ma ea], b as [sb|sb| |sb mb eb]; simpl;
    try discriminate; auto.
Qed.

Lemma is_nan_false (x : float) :
  PrimFloat.is_nan x = false -> Prim2SF x <> S754_nan.
Proof.
  unfold PrimFloat.is_nan. rewrite FloatAxioms.eqb_spec. unfold SFeqb.
  intros E N. rewrite N in E. simpl in E. discriminate.
Qed.

Lemma b64_ltb_leb (x y : float) : (x <? y) = true -> (x <=? y) = true.
Proof.
  rewrite FloatAxioms.ltb_spec, FloatAxioms.leb_spec. unfold SFltb, SFleb.
  destruct (SFcompare _ _) as [[]|]; congruence.
Qed.

Lemma b64_ltb_asym (x y : float) : (x <? y) = true -> (y <? x) = false.
Proof.
  rewrite !FloatAxioms.ltb_spec. unfold SFltb.
  destruct (SFcompare (Prim2SF x) (Prim2SF y)) as [c|] eqn:E; [|discriminate].
  rewrite (SFcompare_antisym _ _ _ E). destruct c; simpl; congruence.
Qed.

Lemma b64_not_ltb (x y : float) :
  PrimFloat.is_nan x = false -> PrimFloat.is_nan y = false ->
  (x <? y) = false -> (y <=? x) = true.
Proof.
  intros Nx Ny. rewrite FloatAxioms.ltb_spec, FloatAxioms.leb_spec. unfold SFltb, SFleb.
  destruct (SFcompare (Prim2SF x) (Prim2SF y)) as [c|] eqn:E.
  - rewrite (SFcompare_antisym _ _ _ E). destruct c; simpl; congruence.
  - destruct (SFcompare_None _ _ E) as [N|N];
      [now apply is_nan_false in Nx|now apply is_nan_false in Ny].
Qed.

Lemma b64_ltb_neq (x y : float) : (x <? y) = true -> (x =? y) = false.
Proof.
  rewrite FloatAxioms.ltb_spec, FloatAxioms.eqb_spec. unfold SFltb, SFeqb.
  destruct (SFcompare _ _) as [[]|]; congruence.
Qed.

Lemma b64_eqb_sym (x y : float) : (x =? y) = (y =? x).
Proof.
  rewrite !FloatAxioms.eqb_spec. unfold SFeqb.
  destruct (SFcompare (Prim2SF x) (Prim2SF y)) as [c|] eqn:E.
  - rewrite (SFcompare_antisym _ _ _ E). destruct c; reflexivity.
  - destruct (SFcompare (Prim2SF y) (Prim2SF x)) as [c|] eqn:E'; [|reflexivity].
    rewrite (SFcompare_antisym _ _ _ E') in E. discriminate.
Qed.

Lemma b64_trichotomy (x y : float) :
  PrimFloat.is_nan x = false -> PrimFloat.is_nan y = false ->
  (x <? y) = false -> (y <? x) = false -> (x =? y) = true.
Proof.
  intros Nx Ny. rewrite !FloatAxioms.ltb_spec, FloatAxioms.eqb_spec. unfold SFltb, SFeqb.
  destruct (SFcompare (Prim2SF x) (Prim2SF y)) as [c|] eqn:E.
  - rewrite (SFcompare_antisym _ _ _ E). destruct c; simpl; congruence.
  - destruct (SFcompare_None _ _ E) as [N|N];
      [now apply is_nan_false in Nx|now apply is_nan_false in Ny].
Qed.
End Binary64Order.

Section Binary64Facts.
Variable L : Binary64.libm.
#[local] Existing Instance Binary64.binary64.
#[local] Open Scope float_scope.

Let b64 : Scalar float := Binary64.binary64 L.

(** X17: the dispatcher's bounds in binary64, for bounds that are
    numbers: [lo <= hi], and [lo < hi] unless [vmin == vmax]. *)
Lemma binary64_bounds_ordered (vmin vmax : float) :
  PrimFloat.is_nan vmin = false -> PrimFloat.is_nan vmax = false ->
  let lo := Py.min (H := b64) vmin vmax in
  let hi := Py.max (H := b64) vmin vmax in
  (lo <=? hi) = true /\ ((lo <? hi) = true <-> (vmin =? vmax) = false).
Proof.
  intros Nmin Nmax. unfold Py.min, Py.max. simpl.
  destruct (vmin <? vmax) eqn:A.
  - rewrite (b64_ltb_asym _ _ A). rewrite A, (b64_ltb_leb _ _ A).
    split; [reflexivity|]. split; [intros _; now apply b64_ltb_neq|reflexivity].
  - destruct (vmax <? vmin) eqn:B.
    + rewrite B, (b64_ltb_leb _ _ B). split; [reflexivity|].
      split; [intros _|reflexivity].
      rewrite b64_eqb_sym. now apply b64_ltb_neq.
    + pose proof (b64_trichotomy _ _ Nmin Nmax A B) as E.
      rewrite (b64_not_ltb vmin vmin Nmin Nmin); [|].
      * split; [reflexivity|]. rewrite E.
        assert (I : (vmin <? vmin) = false).
        { destruct (vmin <? vmin) eqn:I; [|reflexivity].
          now rewrite (b64_ltb_asym _ _ I) in I. }
        rewrite I. split; discriminate.
      * destruct (vmin <? vmin) eqn:I; [|reflexivity].
        now rewrite (b64_ltb_asym _ _ I) in I.
Qed.

(** [np.clip(v, 0, 1)] in binary64 is NaN (when [v] is) or lies in
    [0, 1]. *)
Lemma binary64_clip_unit (v : float) :
  let r := Np.clip (H := b64) (@of_int float b64 0) (@of_int float b64 1) v in
  (PrimFloat.is_nan r = true /\ PrimFloat.is_nan v = true)
  \/ ((0 <=? r) = true /\ (r <=? 1) = true).
Proof.
  change (@of_int float b64 0) with 0.
  change (@of_int float b64 1) with 1.
  unfold Np.clip, Np.minimum, Np.maximum. simpl.
  destruct (PrimFloat.is_nan v) eqn:N.
  - rewrite N. left. split; [exact N|reflexivity].
  - right. destruct (0 <? v) eqn:A.
    + rewrite N. destruct (v <? 1) eqn:B.
      * split; now apply b64_ltb_leb.
      * split; reflexivity.
    + change (PrimFloat.is_nan 0) with false.
      change (0 <? 1) with true. cbv iota. split; reflexivity.
Qed.

(** X16: in binary64 every warper of the table, on any input and any
    arguments, gives elements that are NaN or in [0, 1]. *)
Lemma binary64_stretch_range (h : heap float) (x : array) (xs : list float)
    (vmin vmax bias contrast : float) (stretch : string)
    (warp : warper (F := float)) :
  h !! x = Some xs ->
  dict_get stretch (warpers (H := b64)) = Some warp ->
  exists r fresh ys,
    warp x vmin vmax bias contrast h = (Ok r, h ++ fresh)
    /\ (h ++ fresh) !! r = Some ys
    /\ length ys = length xs
    /\ Forall (fun y => PrimFloat.is_nan y = true
                        \/ ((0 <=? y) = true /\ (y <=? 1) = true)) ys.
Proof.
  intros E W.
  destruct (warpers_run (H := b64) stretch warp W) as (g & _ & C).
  destruct (C h x xs vmin vmax bias contrast E) as (r & fresh & R & _ & Lk).
  exists r, fresh. eexists. split; [exact R|]. split; [exact Lk|].
  split; [apply length_fmap|].
  rewrite Forall_fmap. apply Forall_forall. intros e _. simpl.
  unfold stretch_elt, cscale_elt.
  destruct (binary64_clip_unit
              (@add float b64
                 (@mul float b64
                    (@sub float b64 (g (norm_elt (H := b64) vmin vmax e)) bias)
                    contrast)
                 (@lit_0_5 float b64)))
    as [[N _]|B]; [left; exact N|right; exact B].
Qed.
End Binary64Facts.

(** * Further properties of the module *)

(** ** Buffers: what is allocated and what is left alone *)

Section Buffers.
Context {F : Type} `{Scalar F}.

(** A computation that returns normally and leaves the heap longer by
    exactly [n] buffers. *)
Definition allocs {A} (n : nat) (c : M F A) : Prop :=
  forall h, exists a h', c h = (Ok a, h') /\ length h' = (length h + n)%nat.

Lemma allocs_bind {A B} (n m : nat) (c : M F A) (k : A -> M F B) :
  allocs n c -> (forall a, allocs m (k a)) -> allocs (n + m) (bind c k).
Proof.
  intros Hc Hk h. destruct (Hc h) as (a & h1 & E1 & L1).
  destruct (Hk a h1) as (b & h2 & E2 & L2).
  exists b, h2. split; [now rewrite (bind_ok _ _ _ _ _ E1)|lia].
Qed.

Lemma allocs_ret {A} (a : A) : allocs 0 (ret a).
Proof. intros h. exists a, h. split; [reflexivity|lia]. Qed.

Lemma allocs_ufunc_out f x out : allocs 0 (ufunc_out f x out).
Proof.
  intros h. eexists _, _. split; [reflexivity|].
  rewrite length_insert. lia.
Qed.

Lemma allocs_ufunc_new f x : allocs 1 (ufunc_new f x).
Proof.
  intros h. eexists _, _. split; [reflexivity|].
  rewrite length_app. reflexivity.
Qed.

Lemma allocs_less x v : allocs 1 (less x v).
Proof. unfold less. apply allocs_ufunc_new. Qed.

Ltac allocs_steps :=
  repeat lazymatch goal with
         | |- allocs _ (bind _ _) => eapply allocs_bind; [|intro; cbv beta]
         | |- allocs _ (ret _) => apply allocs_ret
         | |- allocs _ (ufunc_out _ _ _) => apply allocs_ufunc_out
         | |- allocs _ (ufunc_new _ _) => apply allocs_ufunc_new
         | |- allocs _ (less _ _) => apply allocs_less
         end.

Lemma allocs_norm x vmin vmax : allocs 1 (norm x vmin vmax).
Proof.
  unfold norm. change 1%nat with (1 + (0 + (0 + 0)))%nat. allocs_steps.
Qed.

Lemma allocs_cscale x bias contrast : allocs 0 (cscale x bias contrast).
Proof.
  unfold cscale. change 0%nat with (0 + (0 + (0 + (0 + 0))))%nat. allocs_steps.
Qed.

Lemma allocs_linear_warp x vmin vmax bias contrast :
  allocs 1 (linear_warp x vmin vmax bias contrast).
Proof.
  unfold linear_warp. change 1%nat with (1 + 0)%nat.
  eapply allocs_bind; [apply allocs_norm|intro; apply allocs_cscale].
Qed.

Lemma allocs_log_warp x vmin vmax bias contrast exp :
  allocs 2 (log_warp x vmin vmax bias contrast exp).
Proof.
  unfold log_warp. change 2%nat with (1 + (1 + (0 + (0 + (0 + (0 + (0 + 0)))))))%nat.
  eapply allocs_bind; [apply allocs_less|intro].
  eapply allocs_bind; [apply allocs_norm|intro].
  do 4 (eapply allocs_bind; [apply allocs_ufunc_out|intro]).
  eapply allocs_bind; [apply allocs_cscale|intro; apply allocs_ret].
Qed.

Lemma allocs_pow_warp x vmin vmax bias contrast exp :
  allocs 2 (pow_warp x vmin vmax bias contrast exp).
Proof.
  unfold pow_warp. change 2%nat with (1 + (0 + (0 + (1 + (0 + 0)))))%nat.
  eapply allocs_bind; [apply allocs_norm|intro].
  do 2 (eapply allocs_bind; [apply allocs_ufunc_out|intro]).
  eapply allocs_bind; [apply allocs_ufunc_new|intro].
  eapply allocs_bind; [apply allocs_cscale|intro; apply allocs_ret].
Qed.

Lemma allocs_sqrt_warp x vmin vmax bias contrast :
  allocs 1 (sqrt_warp x vmin vmax bias contrast).
Proof.
  unfold sqrt_warp. change 1%nat with (1 + (0 + (0 + 0)))%nat.
  eapply allocs_bind; [apply allocs_norm|intro].
  eapply allocs_bind; [apply allocs_ufunc_out|intro].
  eapply allocs_bind; [apply allocs_cscale|intro; apply allocs_ret].
Qed.

Lemma allocs_squared_warp x vmin vmax bias contrast :
  allocs 1 (squared_warp x vmin vmax bias contrast).
Proof.
  unfold squared_warp. change 1%nat with (1 + (0 + (0 + 0)))%nat.
  eapply allocs_bind; [apply allocs_norm|intro].
  eapply allocs_bind; [apply allocs_ufunc_out|intro].
  eapply allocs_bind; [apply allocs_cscale|intro; apply allocs_ret].
Qed.

Lemma allocs_asinh_warp x vmin vmax bias contrast :
  allocs 1 (asinh_warp x vmin vmax bias contrast).
Proof.
  unfold asinh_warp. change 1%nat with (1 + (0 + (0 + (0 + (0 + 0)))))%nat.
  eapply allocs_bind; [apply allocs_norm|intro].
  do 3 (eapply allocs_bind; [apply allocs_ufunc_out|intro]).
  eapply allocs_bind; [apply allocs_cscale|intro; apply allocs_ret].
Qed.

Lemma allocs_sinh_warp x vmin vmax bias contrast :
  allocs 1 (sinh_warp x vmin vmax bias contrast).
Proof.
  unfold sinh_warp. change 1%nat with (1 + (0 + (0 + (0 + (0 + 0)))))%nat.
  eapply allocs_bind; [apply allocs_norm|intro].
  do 3 (eapply allocs_bind; [apply allocs_ufunc_out|intro]).
  eapply allocs_bind; [apply allocs_cscale|intro; apply allocs_ret].
Qed.

(** The number of buffers the warper of each name allocates. *)
Definition buffers_of (stretch : string) : nat :=
  if String.eqb stretch "log" then 2%nat
  else if String.eqb stretch "power" then 2%nat else 1%nat.

(** X2: every warper of the table only appends to the heap: the
    buffers that existed are as they were, and exactly one array is
    new, except for ['log'], which also builds the mask [x < vmin], and
    for ['power'], whose division has no [out=]: these two leave two
    new arrays. *)
Theorem warpers_append_only (h : heap F) (x : array) (xs : list F)
    (vmin vmax bias contrast : F) (stretch : string) (warp : warper) :
  h !! x = Some xs ->
  dict_get stretch warpers = Some warp ->
  exists r fresh,
    warp x vmin vmax bias contrast h = (Ok r, h ++ fresh)
    /\ length fresh = buffers_of stretch
    /\ (length h <= r < length h + buffers_of stretch)%nat.
Proof.
  intros E W.
  destruct (warpers_run stretch warp W) as (g & _ & C).
  destruct (C h x xs vmin vmax bias contrast E) as (r & fresh & R & Hr & Lk).
  exists r, fresh. split; [exact R|].
  assert (A : allocs (buffers_of stretch) (warp x vmin vmax bias contrast)).
  { revert W. unfold warpers, buffers_of. simpl.
    destruct (String.eqb_spec stretch "linear") as [->|_];
      [intros [= <-]; apply allocs_linear_warp|].
    destruct (String.eqb_spec stretch "log") as [->|_];
      [intros [= <-]; apply allocs_log_warp|].
    destruct (String.eqb_spec stretch "sqrt") as [->|_];
      [intros [= <-]; apply allocs_sqrt_warp|].
    destruct (String.eqb_spec stretch "power") as [->|_];
      [intros [= <-]; apply allocs_pow_warp|].
    destruct (String.eqb_spec stretch "squared") as [->|_];
      [intros [= <-]; apply allocs_squared_warp|].
    destruct (String.eqb_spec stretch "arcsinh") as [->|_];
      [intros [= <-]; apply allocs_asinh_warp|].
    destruct (String.eqb_spec stretch "sinh") as [->|_];
      [intros [= <-]; apply allocs_sinh_warp|].
    discriminate. }
  destruct (A h) as (r' & h' & R' & L'). rewrite R in R'.
  injection R' as <- <-. rewrite length_app in L'.
  split; [lia|]. split; [exact Hr|].
  apply lookup_lt_Some in Lk. rewrite length_app in Lk. lia.
Qed.

(** X1: on a valid stretch name [normalize] returns an array as long
    as its input and only appends to the heap: the input array and every
    other buffer that existed hold what they held.  In particular an
    empty input gives an empty output. *)
Theorem normalize_keeps_input (h : heap F) (value : array) (xs : list F)
    (vmin vmax bias contrast : F) (stretch : string) (warp : warper) :
  h !! value = Some xs ->
  dict_get stretch warpers = Some warp ->
  exists out fresh,
    normalize value vmin vmax bias contrast stretch h = (Ok out, h ++ fresh)
    /\ length out = length xs
    /\ (h ++ fresh) !! value = Some xs
    /\ (forall a, (a < length h)%nat -> (h ++ fresh) !! a = h !! a)
    /\ (xs = [] -> out = []).
Proof.
  intros E W.
  destruct (normalize_run h value xs vmin vmax bias contrast stretch warp E W)
    as (g & r & fresh & fresh' & _ & _ & _ & N).
  eexists _, fresh'. split; [exact N|].
  split; [now rewrite !length_fmap|].
  split; [now apply lookup_app_l_Some|].
  split; [intros a Ha; now apply lookup_app_l|].
  intros ->. reflexivity.
Qed.
End Buffers.

(** ** The other warps *)

Section WarpFormulas.
Import Exact.
#[local] Open Scope R_scope.

(** The normalized value and the adjuster, written out. *)
Definition normalized (vmin vmax e : R) : R :=
  Np.clip 0 1 ((e - vmin) / (vmax - vmin)).


Lemma normalized_range (vmin vmax e : R) : 0 <= normalized vmin vmax e <= 1.
Proof. apply clip_range. lra. Qed.







End WarpFormulas.

(** ** NaN in binary64 *)

Section Binary64NaN.
#[local] Open Scope float_scope.

Lemma SFcompare_refl (s : spec_float) :
  s <> S754_nan -> SFcompare s s = Some Eq.
Proof.
  destruct s as [b|b| |b m e]; simpl; intros N; try congruence.
  - destruct b; reflexivity.
  - rewrite Z.compare_refl, Pcompare_refl. destruct b; reflexivity.
Qed.

Lemma is_nan_spec (x : float) :
  PrimFloat.is_nan x = true <-> Prim2SF x = S754_nan.
Proof.
  unfold PrimFloat.is_nan. rewrite FloatAxioms.eqb_spec. unfold SFeqb. split.
  - intros E. destruct (Prim2SF x) as [b|b| |b m e] eqn:P; try reflexivity;
      rewrite SFcompare_refl in E by discriminate; discriminate.
  - intros ->. reflexivity.
Qed.

Lemma nan_sub (x y : float) :
  PrimFloat.is_nan x = true \/ PrimFloat.is_nan y = true ->
  PrimFloat.is_nan (x - y) = true.
Proof.
  rewrite !is_nan_spec, FloatAxioms.sub_spec. unfold SF64sub, SFsub.
  intros [-> | ->]; [reflexivity|]. destruct (Prim2SF x); reflexivity.
Qed.

Lemma nan_add (x y : float) :
  PrimFloat.is_nan x = true \/ PrimFloat.is_nan y = true ->
  PrimFloat.is_nan (x + y) = true.
Proof.
  rewrite !is_nan_spec, FloatAxioms.add_spec. unfold SF64add, SFadd.
  intros [-> | ->]; [reflexivity|]. destruct (Prim2SF x); reflexivity.
Qed.

Lemma nan_mul (x y : float) :
  PrimFloat.is_nan x = true \/ PrimFloat.is_nan y = true ->
  PrimFloat.is_nan (x * y) = true.
Proof.
  rewrite !is_nan_spec, FloatAxioms.mul_spec. unfold SF64mul, SFmul.
  intros [-> | ->]; [reflexivity|]. destruct (Prim2SF x); reflexivity.
Qed.

Lemma nan_div (x y : float) :
  PrimFloat.is_nan x = true \/ PrimFloat.is_nan y = true ->
  PrimFloat.is_nan (x / y) = true.
Proof.
  rewrite !is_nan_spec, FloatAxioms.div_spec. unfold SF64div, SFdiv.
  intros [-> | ->]; [reflexivity|]. destruct (Prim2SF x); reflexivity.
Qed.

Lemma nan_sqrt (x : float) :
  PrimFloat.is_nan x = true -> PrimFloat.is_nan (PrimFloat.sqrt x) = true.
Proof.
  rewrite !is_nan_spec, FloatAxioms.sqrt_spec. unfold SF64sqrt, SFsqrt.
  intros ->. reflexivity.
Qed.

Variable L : Binary64.libm.
#[local] Existing Instance Binary64.binary64.

Let b64 : Scalar float := Binary64.binary64 L.

Lemma nan_clip (lo hi v : float) :
  PrimFloat.is_nan v = true ->
  PrimFloat.is_nan (Np.clip (H := b64) lo hi v) = true.
Proof.
  intros N. unfold Np.clip, Np.minimum, Np.maximum. simpl.
  rewrite N, N. exact N.
Qed.

Lemma nan_norm_elt (vmin vmax e : float) :
  PrimFloat.is_nan e = true \/ PrimFloat.is_nan vmin = true
  \/ PrimFloat.is_nan vmax = true ->
  PrimFloat.is_nan (norm_elt (H := b64) vmin vmax e) = true.
Proof.
  intros N. unfold norm_elt. apply nan_clip. simpl. apply nan_div.
  destruct N as [N|[N|N]].
  - left. apply nan_sub. now left.
  - left. apply nan_sub. right. apply nan_mul. now right.
  - right. apply nan_sub. now left.
Qed.

Lemma nan_cscale_elt (bias contrast v : float) :
  PrimFloat.is_nan v = true \/ PrimFloat.is_nan bias = true
  \/ PrimFloat.is_nan contrast = true ->
  PrimFloat.is_nan (cscale_elt (H := b64) bias contrast v) = true.
Proof.
  intros N. unfold cscale_elt. apply nan_clip. simpl. apply nan_add. left.
  apply nan_mul. destruct N as [N|[N|N]].
  - left. apply nan_sub. now left.
  - left. apply nan_sub. now right.
  - now right.
Qed.

(** X18: [np.clip] does not clamp NaN.  With the linear and the square-root
    stretch, an input element that is NaN, or any element when a bound,
    the bias or the contrast is NaN, gives NaN in the array the warper
    returns. *)
Theorem binary64_nan_propagates (h : heap float) (x : array)
    (xs : list float) (vmin vmax bias contrast : float)
    (stretch : string) (warp : warper (F := float)) :
  h !! x = Some xs ->
  dict_get stretch (warpers (H := b64)) = Some warp ->
  stretch = "linear"%string \/ stretch = "sqrt"%string ->
  exists r fresh ys,
    warp x vmin vmax bias contrast h = (Ok r, h ++ fresh)
    /\ (h ++ fresh) !! r = Some ys
    /\ forall i e, xs !! i = Some e ->
         PrimFloat.is_nan e = true \/ PrimFloat.is_nan vmin = true
         \/ PrimFloat.is_nan vmax = true \/ PrimFloat.is_nan bias = true
         \/ PrimFloat.is_nan contrast = true ->
         exists y, ys !! i = Some y /\ PrimFloat.is_nan y = true.
Proof.
  intros E W S.
  destruct (warpers_run (H := b64) stretch warp W) as (g & G & C).
  destruct (C h x xs vmin vmax bias contrast E) as (r & fresh & R & _ & Lk).
  exists r, fresh. eexists. split; [exact R|]. split; [exact Lk|].
  intros i e Hi N. rewrite list_lookup_fmap, Hi. simpl. eexists.
  split; [reflexivity|]. unfold stretch_elt. apply nan_cscale_elt.
  assert (K : PrimFloat.is_nan e = true \/ PrimFloat.is_nan vmin = true
              \/ PrimFloat.is_nan vmax = true
              \/ (PrimFloat.is_nan bias = true
                  \/ PrimFloat.is_nan contrast = true)) by tauto.
  destruct K as [K|[K|[K|K]]]; [| | |right; exact K]; left.
  all: assert (T : PrimFloat.is_nan (norm_elt (H := b64) vmin vmax e) = true)
    by (apply nan_norm_elt; tauto).
  all: destruct S as [-> | ->]; injection G as <-.
  all: first [ exact T | apply nan_sqrt, T ].
Qed.
End Binary64NaN.

(** ** Instances of the results above *)

Section ExactWitnesses.
Import Exact.
#[local] Open Scope R_scope.

Lemma normalize_keeps_input_witness :
  exists out fresh,
    normalize 0%nat 0 1 0.5 1 "sqrt" [[0; 0.25; 1]]
    = (Ok out, [[0; 0.25; 1]] ++ fresh)
    /\ length out = length [0; 0.25; 1]
    /\ ([[0; 0.25; 1]] ++ fresh) !! 0%nat = Some [0; 0.25; 1]
    /\ (forall a, lt a (length [[0; 0.25; 1]]) ->
        ([[0; 0.25; 1]] ++ fresh) !! a = [[0; 0.25; 1]] !! a)
    /\ ([0; 0.25; 1] = [] -> out = []).
Proof.
  apply (normalize_keeps_input (F:=R) [[0; 0.25; 1]] 0%nat [0; 0.25; 1]
           0 1 0.5 1 "sqrt" sqrt_warp); reflexivity.
Defined.

Lemma warpers_append_only_witness :
  exists r fresh,
    log_warp 0%nat 0 1 0.5 1 exp_default [[0; 0.25; 1]]
    = (Ok r, [[0; 0.25; 1]] ++ fresh)
    /\ length fresh = buffers_of "log"
    /\ (le (length [[0; 0.25; 1]]) r
        /\ lt r (Nat.add (length [[0; 0.25; 1]]) (buffers_of "log"))).
Proof.
  apply (warpers_append_only (F:=R) [[0; 0.25; 1]] 0%nat [0; 0.25; 1]
           0 1 0.5 1 "log"
           (fun x vmin vmax bias contrast =>
              log_warp x vmin vmax bias contrast exp_default)); reflexivity.
Defined.





End ExactWitnesses.

Section Binary64Witnesses.
#[local] Open Scope float_scope.

Lemma binary64_stretch_range_witness :
  exists r fresh ys,
    sqrt_warp (H := Binary64.binary64 libm_unused) 0%nat 0 4 0.5 1
      [[0; 1; 4; nan]]
    = (Ok r, [[0; 1; 4; nan]] ++ fresh)
    /\ ([[0; 1; 4; nan]] ++ fresh) !! r = Some ys
    /\ length ys = length [0; 1; 4; nan]
    /\ Forall (fun y => PrimFloat.is_nan y = true
                        \/ ((0 <=? y) = true /\ (y <=? 1) = true)) ys.
Proof.
  apply (binary64_stretch_range libm_unused [[0; 1; 4; nan]] 0%nat
           [0; 1; 4; nan] 0 4 0.5 1 "sqrt"
           (sqrt_warp (H := Binary64.binary64 libm_unused))); reflexivity.
Defined.

Lemma binary64_bounds_ordered_witness :
  let lo := Py.min (H := Binary64.binary64 libm_unused) 4 1 in
  let hi := Py.max (H := Binary64.binary64 libm_unused) 4 1 in
  (lo <=? hi) = true /\ ((lo <? hi) = true <-> (4 =? 1) = false).
Proof.
  apply (binary64_bounds_ordered libm_unused 4 1); reflexivity.
Defined.

Lemma binary64_nan_propagates_witness :
  exists r fresh ys,
    linear_warp (H := Binary64.binary64 libm_unused) 0%nat 0 4 0.5 1
      [[0; nan; 4]]
    = (Ok r, [[0; nan; 4]] ++ fresh)
    /\ ([[0; nan; 4]] ++ fresh) !! r = Some ys
    /\ forall i e, [0; nan; 4] !! i = Some e ->
         PrimFloat.is_nan e = true \/ PrimFloat.is_nan 0 = true
         \/ PrimFloat.is_nan 4 = true \/ PrimFloat.is_nan 0.5 = true
         \/ PrimFloat.is_nan 1 = true ->
         exists y, ys !! i = Some y /\ PrimFloat.is_nan y = true.
Proof.
  apply (binary64_nan_propagates libm_unused [[0; nan; 4]] 0%nat [0; nan; 4]
           0 4 0.5 1 "linear"
           (linear_warp (H := Binary64.binary64 libm_unused)));
    [reflexivity|reflexivity|left; reflexivity].
Defined.
End Binary64Witnesses.

(** * The code in binary64 *)

(** The statements below are about the code as numpy runs it: every
    number is an IEEE binary64 value and every operation is rounded.
    They hold for whatever the C library computes. *)

(** ** Comparisons and [np.clip] *)

Section Binary64Clip.
#[local] Open Scope float_scope.

Lemma is_nan_false_iff (x : float) :
  PrimFloat.is_nan x = false <-> Prim2SF x <> S754_nan.
Proof.
  split.
  - intros N E. apply is_nan_spec in E. congruence.
  - intros N. destruct (PrimFloat.is_nan x) eqn:E; [|reflexivity].
    apply is_nan_spec in E. contradiction.
Qed.

Lemma ltb_not_nan (x y : float) :
  (x <? y) = true ->
  PrimFloat.is_nan x = false /\ PrimFloat.is_nan y = false.
Proof.
  rewrite FloatAxioms.ltb_spec, !is_nan_false_iff. unfold SFltb.
  destruct (Prim2SF x), (Prim2SF y); simpl; try discriminate;
    intros _; split; discriminate.
Qed.

Lemma leb_not_nan (x y : float) :
  (x <=? y) = true ->
  PrimFloat.is_nan x = false /\ PrimFloat.is_nan y = false.
Proof.
  rewrite FloatAxioms.leb_spec, !is_nan_false_iff. unfold SFleb.
  destruct (Prim2SF x), (Prim2SF y); simpl; try discriminate;
    intros _; split; discriminate.
Qed.

Lemma b64_leb_refl (x : float) :
  PrimFloat.is_nan x = false -> (x <=? x) = true.
Proof.
  intros N. rewrite FloatAxioms.leb_spec. unfold SFleb.
  rewrite SFcompare_refl; [reflexivity|]. now apply is_nan_false_iff.
Qed.

Lemma b64_leb_not_ltb (x y : float) : (x <=? y) = true -> (y <? x) = false.
Proof.
  rewrite FloatAxioms.leb_spec, FloatAxioms.ltb_spec. unfold SFleb, SFltb.
  destruct (SFcompare (Prim2SF x) (Prim2SF y)) as [c|] eqn:E; [|discriminate].
  rewrite (SFcompare_antisym _ _ _ E). destruct c; simpl; congruence.
Qed.

Variable L : Binary64.libm.
#[local] Abbreviation b64 := (Binary64.binary64 L).

(** The four cases of [np.clip(v, lo, hi)] for [lo < hi]: a NaN is
    returned as it is, a value at most [lo] gives [lo], a value at least
    [hi] gives [hi], and a value in between is returned as it is. *)
Lemma b64_clip_cases (lo hi v : float) :
  (lo <? hi) = true ->
  (PrimFloat.is_nan v = true /\ Np.clip (H := b64) lo hi v = v)
  \/ ((v <=? lo) = true /\ Np.clip (H := b64) lo hi v = lo)
  \/ ((lo <? v) = true /\ (v <? hi) = true /\ Np.clip (H := b64) lo hi v = v)
  \/ ((hi <=? v) = true /\ Np.clip (H := b64) lo hi v = hi).
Proof.
  intros Hlh. destruct (ltb_not_nan _ _ Hlh) as [Nlo Nhi].
  unfold Np.clip, Np.minimum, Np.maximum. simpl.
  destruct (PrimFloat.is_nan v) eqn:N.
  - left. rewrite N. tauto.
  - right. destruct (lo <? v) eqn:A.
    + rewrite N. destruct (v <? hi) eqn:B.
      * right. left. tauto.
      * right. right. split; [|reflexivity]. now apply b64_not_ltb.
    + left. rewrite Nlo, Hlh. split; [|reflexivity]. now apply b64_not_ltb.
Qed.

(** The result of a clip is NaN exactly when its argument is, and
    otherwise lies between the bounds. *)
Lemma b64_clip_range (lo hi v : float) :
  (lo <? hi) = true ->
  (PrimFloat.is_nan (Np.clip (H := b64) lo hi v) = PrimFloat.is_nan v)
  /\ (PrimFloat.is_nan v = false ->
      (lo <=? Np.clip (H := b64) lo hi v) = true
      /\ (Np.clip (H := b64) lo hi v <=? hi) = true).
Proof.
  intros Hlh. destruct (ltb_not_nan _ _ Hlh) as [Nlo Nhi].
  pose proof (b64_ltb_leb _ _ Hlh) as Hle.
  destruct (b64_clip_cases lo hi v Hlh)
    as [[N ->]|[[A ->]|[(A & B & ->)|[A ->]]]].
  - split; [reflexivity|congruence].
  - destruct (leb_not_nan _ _ A) as [Nv _]. split; [congruence|].
    intros _. split; [now apply b64_leb_refl|exact Hle].
  - destruct (ltb_not_nan _ _ A) as [_ Nv]. split; [reflexivity|].
    intros _. split; now apply b64_ltb_leb.
  - destruct (leb_not_nan _ _ A) as [_ Nv]. split; [congruence|].
    intros _. split; [exact Hle|now apply b64_leb_refl].
Qed.
End Binary64Clip.

Section Binary64Unit.
#[local] Open Scope float_scope.

(** A number that is at least a positive number is positive. *)
Lemma b64_pos_of_ge (c v : float) :
  (0 <? c) = true -> (c <=? v) = true -> (0 <? v) = true.
Proof.
  rewrite !FloatAxioms.ltb_spec, FloatAxioms.leb_spec. unfold SFltb, SFleb.
  replace (Prim2SF 0) with (S754_zero false) by (vm_compute; reflexivity).
  destruct (Prim2SF c) as [sc|sc| |sc mc ec], (Prim2SF v) as [sv|sv| |sv mv ev];
    cbv beta iota delta [SFcompare]; try discriminate;
    try (destruct sc; discriminate); try (destruct sv; discriminate);
    try (destruct sc, sv; discriminate); try reflexivity.
  all: destruct sc, sv; try discriminate; reflexivity.
Qed.

(** The only number between 1 and 1 is 1. *)
Lemma b64_eq_one (r : float) :
  (1 <=? r) = true -> (r <=? 1) = true -> r = 1.
Proof.
  rewrite !FloatAxioms.leb_spec. unfold SFleb. intros A B.
  apply Prim2SF_inj.
  replace (Prim2SF 1) with (S754_finite false 4503599627370496 (-52)) in *
    by (vm_compute; reflexivity).
  destruct (Prim2SF r) as [s|s| |s m e];
    cbv beta iota delta [SFcompare] in A, B; try discriminate;
    try (destruct s; discriminate).
  destruct s; [discriminate|].
  destruct (e ?= -52)%Z eqn:C.
  - apply Z.compare_eq in C. subst e.
    rewrite (ZC4 4503599627370496 m) in A.
    destruct (Pos.compare_cont Eq m 4503599627370496) eqn:Cm;
      try discriminate.
    apply Pcompare_Eq_eq in Cm. now subst m.
  - rewrite Z.compare_antisym, C in A. discriminate.
  - discriminate.
Qed.

Variable L : Binary64.libm.
#[local] Abbreviation b64 := (Binary64.binary64 L).

(** [np.clip(v, 0, hi)] for a positive [hi], by the position of [v]. *)
Lemma b64_clip0 (hi v : float) :
  (0 <? hi) = true ->
  ((v <=? 0) = true -> Np.clip (H := b64) 0 hi v = 0)
  /\ ((hi <=? v) = true -> Np.clip (H := b64) 0 hi v = hi)
  /\ ((0 <? v) = true -> (v <? hi) = true -> Np.clip (H := b64) 0 hi v = v).
Proof.
  intros Hh. destruct (ltb_not_nan _ _ Hh) as [N0 Nh].
  unfold Np.clip, Np.minimum, Np.maximum. simpl.
  split; [|split].
  - intros A. destruct (leb_not_nan _ _ A) as [Nv _].
    rewrite Nv, (b64_leb_not_ltb _ _ A), N0, Hh. reflexivity.
  - intros A. destruct (leb_not_nan _ _ A) as [_ Nv].
    rewrite Nv, (b64_pos_of_ge _ _ Hh A), Nv, (b64_leb_not_ltb _ _ A).
    reflexivity.
  - intros A B. destruct (ltb_not_nan _ _ A) as [_ Nv].
    rewrite Nv, A, Nv, B. reflexivity.
Qed.
End Binary64Unit.

(** ** The conversion to a byte *)

Section Binary64Trunc.
#[local] Open Scope float_scope.

Lemma digits2_pos_size (m : positive) : digits2_pos m = Pos.size m.
Proof. induction m; simpl; congruence. Qed.

(** The mantissa of a binary64 number has at most 53 bits. *)
Lemma mantissa_bound (x : float) (s : bool) (m : positive) (e : Z) :
  Prim2SF x = S754_finite s m e -> (Z.pos m < 2 ^ 53)%Z.
Proof.
  intros P. pose proof (FloatAxioms.Prim2SF_valid x) as V.
  rewrite P in V. simpl in V. unfold bounded, canonical_mantissa in V.
  apply andb_prop in V as [V _]. apply Z.eqb_eq in V.
  unfold fexp, FloatOps.prec in V. rewrite digits2_pos_size in V.
  assert (D : (Z.pos (Pos.size m) <= 53)%Z) by lia.
  pose proof (Pos.size_gt m) as G.
  apply Pos2Z.pos_lt_pos in G. rewrite Pos2Z.inj_pow in G.
  eapply Z.lt_le_trans; [exact G|].
  apply Z.pow_le_mono_r; lia.
Qed.

Lemma trunc_range (c : float) :
  (0 <=? c) = true -> (c <=? 255) = true ->
  (0 <= Binary64.trunc c <= 255)%Z
  /\ (Binary64.trunc c = 255%Z -> c = 255).
Proof.
  rewrite !FloatAxioms.leb_spec. unfold SFleb, Binary64.trunc.
  replace (Prim2SF 0) with (S754_zero false) by (vm_compute; reflexivity).
  replace (Prim2SF 255) with (S754_finite false 8972014882652160 (-45))
    by (vm_compute; reflexivity).
  destruct (Prim2SF c) as [s|s| |s m e] eqn:P;
    cbv beta iota delta [SFcompare].
  - intros _ _. split; [lia|discriminate].
  - intros _ _. split; [lia|discriminate].
  - discriminate.
  - pose proof (mantissa_bound c s m e P) as B.
    destruct s; [discriminate|]. intros _.
    destruct (e ?= -45)%Z eqn:C.
    + apply Z.compare_eq in C. subst e.
      change (0 <=? -45)%Z with false. cbv iota.
      change (- -45)%Z with 45%Z.
      destruct (Pos.compare_cont Eq m 8972014882652160) eqn:Cm; try discriminate; intros _.
      * apply Pcompare_Eq_eq in Cm. subst m. split; [vm_compute; split; discriminate|].
        intros _. apply Prim2SF_inj. rewrite P. vm_compute. reflexivity.
      * apply (proj1 (Pos.compare_lt_iff m 8972014882652160)) in Cm.
        apply Pos2Z.pos_lt_pos in Cm.
        assert (Q : (0 <= Z.pos m / 2 ^ 45 < 255)%Z).
        { split; [apply Z.div_pos; lia|].
          apply Z.div_lt_upper_bound; lia. }
        split; lia.
    + intros _. change (e < -45)%Z in C.
      assert (E : (0 <=? e)%Z = false) by (apply Z.leb_gt; lia). rewrite E.
      assert (Q : (0 <= Z.pos m / 2 ^ (- e) < 255)%Z).
      { split; [apply Z.div_pos; [lia|apply Z.pow_pos_nonneg; lia]|].
        apply Z.div_lt_upper_bound; [apply Z.pow_pos_nonneg; lia|].
        assert (2 ^ 46 <= 2 ^ (- e))%Z by (apply Z.pow_le_mono_r; lia).
        lia. }
      split; lia.
    + discriminate.
Qed.
End Binary64Trunc.

Section Binary64Quantize.
#[local] Open Scope float_scope.
Variable L : Binary64.libm.
#[local] Abbreviation b64 := (Binary64.binary64 L).

Lemma b64_quantize_elt (r : float) :
  quantize_elt (H := b64) r
  = Np.to_uint8 (H := b64) (Np.clip (H := b64) 0 255 (255 * r)).
Proof. reflexivity. Qed.

Lemma trunc_nan (p : float) :
  PrimFloat.is_nan p = true -> Binary64.trunc p = 0%Z.
Proof.
  intros N. apply is_nan_spec in N. unfold Binary64.trunc. now rewrite N.
Qed.

(** The byte of a stretch result [r]: 0 when the product [255 * r] is
    NaN; otherwise the integer part of the clipped product, which is
    in [0, 255] and is 255 only for a product of at least 255. *)
Lemma quantize_cases (r : float) :
  (PrimFloat.is_nan (255 * r) = true /\ quantize_elt (H := b64) r = 0%Z)
  \/ (PrimFloat.is_nan (255 * r) = false
      /\ quantize_elt (H := b64) r
         = Binary64.trunc (Np.clip (H := b64) 0 255 (255 * r))
      /\ (0 <= quantize_elt (H := b64) r <= 255)%Z
      /\ (quantize_elt (H := b64) r = 255%Z -> (255 <=? 255 * r) = true)).
Proof.
  rewrite b64_quantize_elt. unfold Np.to_uint8. simpl to_int.
  set (p := 255 * r).
  assert (Hlh : (0 <? 255) = true) by (vm_compute; reflexivity).
  destruct (b64_clip_range L 0 255 p Hlh) as [Hn Hr].
  destruct (PrimFloat.is_nan p) eqn:N.
  - left. split; [reflexivity|]. rewrite trunc_nan by exact Hn. reflexivity.
  - right. split; [reflexivity|]. destruct (Hr eq_refl) as [H0 H1].
    destruct (trunc_range _ H0 H1) as [B E].
    rewrite Z.mod_small by lia. split; [reflexivity|]. split; [exact B|].
    intros Q. specialize (E Q).
    destruct (b64_clip_cases L 0 255 p Hlh)
      as [[N' _]|[[_ C]|[(_ & A & C)|[A _]]]].
    + congruence.
    + rewrite C in E. apply (f_equal Prim2SF) in E. vm_compute in E. discriminate.
    + rewrite C in E. rewrite E in A. vm_compute in A. discriminate.
    + exact A.
Qed.
End Binary64Quantize.

(** ** Rounding: what the specification of the primitive operations
    gives *)

Section Binary64Round.

(** One step of the right shift halves the mantissa. *)
Lemma shr_1_m (mrs : shr_record) :
  0 <= shr_m mrs -> shr_m (shr_1 mrs) = shr_m mrs / 2.
Proof.
  destruct mrs as [m r s]. simpl. intros Hm.
  destruct m as [|p|p]; [reflexivity| |lia].
  destruct p as [p|p|]; simpl shr_m.
  - rewrite Pos2Z.inj_xI. apply Z.div_unique with 1; lia.
  - rewrite Pos2Z.inj_xO. apply Z.div_unique with 0; lia.
  - reflexivity.
Qed.

Lemma shr_m_iter (p : positive) (mrs : shr_record) :
  0 <= shr_m mrs ->
  shr_m (SpecFloat.iter_pos shr_1 p mrs) = shr_m mrs / 2 ^ Z.pos p.
Proof.
  revert mrs. induction p as [p IH|p IH|]; intros mrs Hm;
    simpl SpecFloat.iter_pos.
  - assert (P : 0 < 2 ^ Z.pos p) by (apply Z.pow_pos_nonneg; lia).
    assert (H1 : 0 <= shr_m (shr_1 mrs)).
    { rewrite shr_1_m by exact Hm. apply Z.div_pos; lia. }
    assert (H2 : 0 <= shr_m (SpecFloat.iter_pos shr_1 p (shr_1 mrs))).
    { rewrite IH by exact H1. apply Z.div_pos; lia. }
    rewrite IH by exact H2. rewrite IH by exact H1.
    rewrite shr_1_m by exact Hm.
    rewrite !Z.div_div by lia.
    f_equal. replace (Z.pos p~1) with (1 + Z.pos p + Z.pos p) by lia.
    rewrite !Z.pow_add_r, Z.pow_1_r by lia. ring.
  - assert (P : 0 < 2 ^ Z.pos p) by (apply Z.pow_pos_nonneg; lia).
    assert (H2 : 0 <= shr_m (SpecFloat.iter_pos shr_1 p mrs)).
    { rewrite IH by exact Hm. apply Z.div_pos; lia. }
    rewrite IH by exact H2. rewrite IH by exact Hm.
    rewrite Z.div_div by lia.
    f_equal. replace (Z.pos p~0) with (Z.pos p + Z.pos p) by lia.
    rewrite Z.pow_add_r by lia. reflexivity.
  - rewrite shr_1_m by exact Hm. reflexivity.
Qed.

Lemma shr_record_of_loc_m (m : Z) (l : location) :
  shr_m (shr_record_of_loc m l) = m.
Proof. destruct l as [|[]]; reflexivity. Qed.

(** [shr_fexp] shifts the mantissa to the exponent of the format. *)
Lemma shr_fexp_m (m e : Z) (l : location) :
  0 <= m ->
  let e' := Z.max e (fexp prec emax (Zdigits2 m + e)) in
  snd (shr_fexp prec emax m e l) = e'
  /\ shr_m (fst (shr_fexp prec emax m e l)) = m / 2 ^ (e' - e).
Proof.
  intros Hm e'. unfold shr_fexp, shr. subst e'.
  destruct (fexp prec emax (Zdigits2 m + e) - e) as [|p|p] eqn:N; simpl fst; simpl snd.
  - rewrite shr_record_of_loc_m. replace (Z.max _ _ - e) with 0 by lia.
    rewrite Z.div_1_r. split; [lia|reflexivity].
  - rewrite shr_m_iter by (rewrite shr_record_of_loc_m; exact Hm).
    rewrite shr_record_of_loc_m.
    replace (Z.max _ _ - e) with (Z.pos p) by lia. split; [lia|reflexivity].
  - rewrite shr_record_of_loc_m. replace (Z.max _ _ - e) with 0 by lia.
    rewrite Z.div_1_r. split; [lia|reflexivity].
Qed.

Lemma round_nearest_even_bounds (m : Z) (l : location) :
  m <= round_nearest_even m l <= m + 1.
Proof.
  destruct l as [|[]]; simpl; try lia. destruct (Z.even m); lia.
Qed.

(** Rounding a positive integer [p] scaled by [2 ^ ex]: the result has
    the sign asked for, and when it is finite its value is at most one
    unit of the first shift above the exact one. *)
Lemma binary_round_aux_upper (sx : bool) (p : positive) (ex : Z)
    (lx : location) :
  let e1 := Z.max ex (fexp prec emax (Zdigits2 (Z.pos p) + ex)) in
  binary_round_aux prec emax sx (Z.pos p) ex lx = S754_zero sx
  \/ (exists m e, binary_round_aux prec emax sx (Z.pos p) ex lx
                  = S754_finite sx m e
        /\ ex <= e
        /\ Z.pos m * 2 ^ (e - ex) <= Z.pos p + 2 ^ (e1 - ex))
  \/ (binary_round_aux prec emax sx (Z.pos p) ex lx = S754_infinity sx
      /\ exists m1, 0 <= m1 <= Z.pos p / 2 ^ (e1 - ex) + 1
           /\ emax - prec < Z.max e1 (fexp prec emax (Zdigits2 m1 + e1))).
Proof.
  intros e1. unfold binary_round_aux.
  destruct (shr_fexp_m (Z.pos p) ex lx ltac:(lia)) as [E1 M1].
  fold e1 in E1, M1.
  destruct (shr_fexp prec emax (Z.pos p) ex lx) as [mrs' e'].
  simpl fst in M1. simpl snd in E1. subst e'.
  set (m1 := round_nearest_even (shr_m mrs') (loc_of_shr_record mrs')).
  pose proof (round_nearest_even_bounds (shr_m mrs') (loc_of_shr_record mrs'))
    as B1. fold m1 in B1. rewrite M1 in B1.
  assert (P1 : 0 < 2 ^ (e1 - ex)) by (apply Z.pow_pos_nonneg; lia).
  assert (H1 : 0 <= Z.pos p / 2 ^ (e1 - ex)) by (apply Z.div_pos; lia).
  destruct (shr_fexp_m m1 e1 loc_Exact ltac:(lia)) as [E2 M2].
  destruct (shr_fexp prec emax m1 e1 loc_Exact) as [mrs'' e''].
  simpl fst in M2. simpl snd in E2.
  set (e2 := Z.max e1 (fexp prec emax (Zdigits2 m1 + e1))) in *.
  assert (P2 : 0 < 2 ^ (e2 - e1)) by (apply Z.pow_pos_nonneg; lia).
  destruct (shr_m mrs'') as [|m|m] eqn:S.
  - left. reflexivity.
  - right. destruct (e'' <=? emax - prec) eqn:Le.
    + left. exists m, e''. split; [reflexivity|]. subst e''.
      split; [lia|].
      replace (e2 - ex) with ((e2 - e1) + (e1 - ex)) by lia.
      rewrite Z.pow_add_r by lia.
      pose proof (Z.mul_div_le m1 (2 ^ (e2 - e1)) P2) as D2.
      pose proof (Z.mul_div_le (Z.pos p) (2 ^ (e1 - ex)) P1) as D1.
      rewrite <- M2 in D2. nia.
    + right. split; [reflexivity|]. exists m1. split; [lia|].
      apply Z.leb_gt in Le. subst e''. exact Le.
  - exfalso. pose proof (Z.div_pos m1 (2 ^ (e2 - e1)) ltac:(lia) P2). lia.
Qed.

(** Number of binary digits. *)
Lemma digits_lower (p : positive) : 2 ^ Z.pos (digits2_pos p) <= 2 * Z.pos p.
Proof.
  rewrite digits2_pos_size. pose proof (Pos.size_le p) as H.
  apply Pos2Z.pos_le_pos in H. rewrite Pos2Z.inj_pow in H. exact H.
Qed.

Lemma digits_upper (p : positive) : Z.pos p < 2 ^ Z.pos (digits2_pos p).
Proof.
  rewrite digits2_pos_size. pose proof (Pos.size_gt p) as H.
  apply Pos2Z.pos_lt_pos in H. rewrite Pos2Z.inj_pow in H. exact H.
Qed.

Lemma digits_le (p : positive) (k : Z) :
  Z.pos p < 2 ^ k -> Z.pos (digits2_pos p) <= k.
Proof.
  intros H. pose proof (digits_lower p) as D.
  destruct (Z.le_gt_cases (Z.pos (digits2_pos p)) k) as [|G]; [assumption|].
  assert (0 <= k).
  { destruct (Z.le_gt_cases 0 k); [assumption|].
    rewrite Z.pow_neg_r in H by lia. lia. }
  assert (2 ^ (k + 1) <= 2 ^ Z.pos (digits2_pos p))
    by (apply Z.pow_le_mono_r; lia).
  rewrite Z.pow_add_r, Z.pow_1_r in * by lia. lia.
Qed.

Lemma Zdigits2_le (m k : Z) : 0 <= m < 2 ^ k -> 0 <= k -> Zdigits2 m <= k.
Proof.
  intros [H0 H1] Hk. destruct m as [|p|p]; simpl; [lia| |lia].
  now apply digits_le.
Qed.

(** What it means for a mantissa to be canonical in binary64. *)
Lemma canonical_bounds (m : positive) (e : Z) :
  canonical_mantissa prec emax m e = true ->
  -1074 <= e /\ Z.pos m < 2 ^ 53 /\ (-1074 < e -> 2 ^ 52 <= Z.pos m).
Proof.
  unfold canonical_mantissa, fexp, emin, prec, emax. intros C.
  apply Z.eqb_eq in C.
  pose proof (digits_upper m) as U. pose proof (digits_lower m) as Lo.
  split; [lia|]. split.
  - eapply Z.lt_le_trans; [exact U|]. apply Z.pow_le_mono_r; lia.
  - intros He. assert (D : Z.pos (digits2_pos m) = 53) by lia.
    rewrite D in Lo. change (2 ^ 53) with (2 * 2 ^ 52) in Lo. lia.
Qed.

(** On canonical positive numbers the comparison is that of the
    values: here the values are scaled by [2 ^ (- b)] to integers. *)
Lemma SFcompare_canonical_lt (m1 m2 : positive) (e1 e2 b : Z) :
  canonical_mantissa prec emax m1 e1 = true ->
  canonical_mantissa prec emax m2 e2 = true ->
  b <= e1 -> b <= e2 ->
  Z.pos m1 * 2 ^ (e1 - b) < Z.pos m2 * 2 ^ (e2 - b) ->
  SFcompare (S754_finite false m1 e1) (S754_finite false m2 e2) = Some Lt.
Proof.
  intros C1 C2 B1 B2 V.
  destruct (canonical_bounds _ _ C1) as (E1 & U1 & N1).
  destruct (canonical_bounds _ _ C2) as (E2 & U2 & N2).
  cbv beta iota delta [SFcompare].
  destruct (e1 ?= e2) eqn:C.
  - apply Z.compare_eq in C. subst e2.
    assert (P : 0 < 2 ^ (e1 - b)) by (apply Z.pow_pos_nonneg; lia).
    assert (L : Z.pos m1 < Z.pos m2) by nia.
    f_equal. apply (proj2 (Pos.compare_lt_iff m1 m2)). exact L.
  - reflexivity.
  - exfalso. apply Z.compare_gt_iff in C.
    assert (P : 0 < 2 ^ (e2 - b)) by (apply Z.pow_pos_nonneg; lia).
    assert (Q : 2 * 2 ^ (e2 - b) <= 2 ^ (e1 - b)).
    { replace (e1 - b) with ((e1 - e2) + (e2 - b)) by lia.
      rewrite Z.pow_add_r by lia.
      assert (2 ^ 1 <= 2 ^ (e1 - e2)) by (apply Z.pow_le_mono_r; lia).
      rewrite Z.pow_1_r in *. nia. }
    specialize (N1 ltac:(lia)). nia.
Qed.

Lemma valid_finite (x : float) (s : bool) (m : positive) (e : Z) :
  Prim2SF x = S754_finite s m e ->
  canonical_mantissa prec emax m e = true /\ e <= emax - prec.
Proof.
  intros P. pose proof (FloatAxioms.Prim2SF_valid x) as V. rewrite P in V.
  unfold valid_binary, bounded in V. apply andb_prop in V as [C B].
  split; [exact C|]. now apply Z.leb_le.
Qed.

(** Scaling by 255 keeps a number below 1 below 255: the rounded
    product [255 * r] is less than 255 whenever [r] is less than 1. *)
Lemma mul_255_lt (r : float) :
  (r <? 1)%float = true -> (255 * r <? 255)%float = true.
Proof.
  rewrite !FloatAxioms.ltb_spec. unfold SFltb.
  pose proof (valid_finite (255 * r)) as V.
  rewrite FloatAxioms.mul_spec in *. unfold SF64mul, SFmul in *.
  replace (Prim2SF 1) with (S754_finite false 4503599627370496 (-52))
    by (vm_compute; reflexivity).
  replace (Prim2SF 255) with (S754_finite false 8972014882652160 (-45)) in *
    by (vm_compute; reflexivity).
  destruct (Prim2SF r) as [s|s| |s m e] eqn:P.
  - reflexivity.
  - destruct s; [reflexivity|discriminate].
  - discriminate.
  - destruct (valid_finite r s m e P) as [C _].
    destruct (canonical_bounds _ _ C) as (E0 & U & N).
    intros Hlt. cbv beta iota delta [SFcompare] in Hlt.
    cbv beta iota delta [xorb].
    pose proof (binary_round_aux_upper s (8972014882652160 * m) (-45 + e)
                  loc_Exact) as B.
    cbv zeta in B.
    set (R := binary_round_aux prec emax s
                (Z.pos (8972014882652160 * m)) (-45 + e) loc_Exact) in *.
    destruct s.
    + destruct B as [-> | [(m' & e' & -> & _) | (-> & _)]]; reflexivity.
    + (* a positive number below 1 has an exponent of at most -53 *)
      assert (E53 : e <= -53).
      { revert Hlt. destruct (e ?= -52) eqn:Ce; try discriminate.
        - apply Z.compare_eq in Ce. subst e.
          destruct (Pos.compare_cont Eq m 4503599627370496) eqn:Cm;
            try discriminate.
          apply (proj1 (Pos.compare_lt_iff m 4503599627370496)) in Cm.
          apply Pos2Z.pos_lt_pos in Cm.
          specialize (N ltac:(lia)). lia.
        - change (e < -52) in Ce. lia. }
      clear Hlt.
      assert (D : Zdigits2 (Z.pos (8972014882652160 * m)) <= 106).
      { apply Zdigits2_le; [|lia]. rewrite Pos2Z.inj_mul.
        change (2 ^ 106) with (2 ^ 53 * 2 ^ 53). nia. }
      assert (D0 : 0 < Zdigits2 (Z.pos (8972014882652160 * m)))
        by (simpl; lia).
      set (e1 := Z.max (-45 + e)
                   (fexp prec emax
                      (Zdigits2 (Z.pos (8972014882652160 * m)) + (-45 + e))))
        in *.
      assert (E1 : -45 + e <= e1 <= e + 8).
      { subst e1. unfold fexp, emin, prec, emax. lia. }
      assert (K : 2 ^ (e1 - (-45 + e)) <= 2 ^ 53)
        by (apply Z.pow_le_mono_r; lia).
      destruct B as [-> | [(m' & e' & Q & Le & Bd) | (Q & m1 & B1 & Ov)]].
      * reflexivity.
      * rewrite Q. specialize (V false m' e' Q). destruct V as [C' _].
        destruct (Z.eq_dec (Z.pos m) (2 ^ 53 - 1)) as [Top|NotTop];
          [destruct (Z.eq_dec e (-53)) as [Ee|Ne]|].
        -- (* the largest number below 1 *)
           assert (Em : m = 9007199254740991%positive)
             by (apply Pos2Z.inj; rewrite Top; reflexivity).
           clear - Q Em Ee. subst m e. revert Q. unfold R.
           match goal with
           | |- ?a = _ -> _ =>
               let v := eval vm_compute in a in change a with v
           end.
           intros [= <- <-]. reflexivity.
        -- f_equal. 
           rewrite (SFcompare_canonical_lt m' 8972014882652160 e' (-45)
                      (-45 + e) C' eq_refl Le ltac:(lia)); [reflexivity|].
           replace (-45 - (-45 + e)) with (- e) by lia.
           assert (A : 2 ^ 54 <= 2 ^ (- e)) by (apply Z.pow_le_mono_r; lia).
           rewrite Pos2Z.inj_mul in Bd.
           eapply Z.le_lt_trans; [exact Bd|]. nia.
        -- f_equal.
           rewrite (SFcompare_canonical_lt m' 8972014882652160 e' (-45)
                      (-45 + e) C' eq_refl Le ltac:(lia)); [reflexivity|].
           replace (-45 - (-45 + e)) with (- e) by lia.
           assert (A : 2 ^ 53 <= 2 ^ (- e)) by (apply Z.pow_le_mono_r; lia).
           rewrite Pos2Z.inj_mul in Bd.
           eapply Z.le_lt_trans; [exact Bd|]. nia.
      * exfalso.
        assert (P1 : 0 < 2 ^ (e1 - (-45 + e)))
          by (apply Z.pow_pos_nonneg; lia).
        assert (M1 : m1 < 2 ^ 107).
        { assert (Z.pos (8972014882652160 * m) / 2 ^ (e1 - (-45 + e))
                  <= Z.pos (8972014882652160 * m)).
          { apply Z.div_le_upper_bound; [exact P1|]. nia. }
          rewrite Pos2Z.inj_mul in *.
          change (2 ^ 107) with (2 * (2 ^ 53 * 2 ^ 53)). nia. }
        assert (Zdigits2 m1 <= 107) by (apply Zdigits2_le; lia).
        revert Ov. unfold fexp, emin, prec, emax. lia.
Qed.
End Binary64Round.

(** ** Signs of differences and quotients *)

Section Binary64Sign.

(** A number that is not positive: NaN, a zero, a negative number or
    minus infinity. *)
Definition nonpos_or_nan (f : spec_float) : bool :=
  match f with
  | S754_finite false _ _ | S754_infinity false => false
  | _ => true
  end.

(** A number with the sign bit clear, or NaN: NaN, the zero [+0], a
    positive number or plus infinity. *)
Definition nonneg_or_nan (f : spec_float) : bool :=
  match f with
  | S754_zero true | S754_finite true _ _ | S754_infinity true => false
  | _ => true
  end.

(** Rounding keeps the sign it is given. *)
Lemma binary_round_aux_sign (sx : bool) (mx ex : Z) (lx : location) :
  0 <= mx ->
  match binary_round_aux prec emax sx mx ex lx with
  | S754_zero s | S754_infinity s | S754_finite s _ _ => s = sx
  | S754_nan => False
  end.
Proof.
  intros Hm. unfold binary_round_aux.
  destruct (shr_fexp_m mx ex lx Hm) as [_ M1].
  destruct (shr_fexp prec emax mx ex lx) as [mrs' e']. simpl fst in M1.
  set (e1 := Z.max ex (fexp prec emax (Zdigits2 mx + ex))) in *.
  set (m1 := round_nearest_even (shr_m mrs') (loc_of_shr_record mrs')).
  pose proof (round_nearest_even_bounds (shr_m mrs') (loc_of_shr_record mrs'))
    as B1. fold m1 in B1. rewrite M1 in B1.
  assert (P1 : 0 < 2 ^ (e1 - ex)) by (apply Z.pow_pos_nonneg; lia).
  assert (H1 : 0 <= mx / 2 ^ (e1 - ex)) by (apply Z.div_pos; lia).
  destruct (shr_fexp_m m1 e' loc_Exact ltac:(lia)) as [_ M2].
  destruct (shr_fexp prec emax m1 e' loc_Exact) as [mrs'' e''].
  simpl fst in M2.
  set (e2 := Z.max e' (fexp prec emax (Zdigits2 m1 + e'))) in *.
  assert (P2 : 0 < 2 ^ (e2 - e')) by (apply Z.pow_pos_nonneg; lia).
  destruct (shr_m mrs'') as [|m|m] eqn:S.
  - reflexivity.
  - destruct (e'' <=? emax - prec); reflexivity.
  - pose proof (Z.div_pos m1 (2 ^ (e2 - e')) ltac:(lia) P2). lia.
Qed.

Lemma binary_normalize_sign (m e : Z) :
  match binary_normalize prec emax m e false with
  | S754_zero _ => True
  | S754_infinity s | S754_finite s _ _ => s = (m <? 0)
  | S754_nan => False
  end.
Proof.
  unfold binary_normalize, binary_round.
  destruct m as [|p|p]; [exact I| |].
  - destruct (shl_align p e _) as [mz ez].
    pose proof (binary_round_aux_sign false (Z.pos mz) ez loc_Exact
                  ltac:(lia)) as S.
    destruct (binary_round_aux _ _ _ _ _ _); auto.
  - destruct (shl_align p e _) as [mz ez].
    pose proof (binary_round_aux_sign true (Z.pos mz) ez loc_Exact
                  ltac:(lia)) as S.
    destruct (binary_round_aux _ _ _ _ _ _); auto.
Qed.

(** Aligning a mantissa to a smaller exponent multiplies it by the
    power of two in between. *)
Lemma shl_align_fst (m : positive) (e ez : Z) :
  ez <= e -> Z.pos (fst (shl_align m e ez)) = Z.pos m * 2 ^ (e - ez).
Proof.
  intros H. unfold shl_align.
  destruct (ez - e) as [|d|d] eqn:D; simpl fst.
  - replace (e - ez) with 0 by lia. lia.
  - lia.
  - replace (e - ez) with (Z.pos d) by lia.
    change (Pos.iter xO m d) with (shift_pos d m).
    rewrite shift_pos_correct. rewrite Z.mul_comm. reflexivity.
Qed.

(** The comparison of two canonical numbers of the same sign, as the
    comparison of their values scaled to integers. *)
Lemma SFcompare_canonical_le (m1 m2 : positive) (e1 e2 b : Z) (c : comparison) :
  canonical_mantissa prec emax m1 e1 = true ->
  canonical_mantissa prec emax m2 e2 = true ->
  b <= e1 -> b <= e2 ->
  SFcompare (S754_finite false m1 e1) (S754_finite false m2 e2) = Some c ->
  c <> Gt ->
  Z.pos m1 * 2 ^ (e1 - b) <= Z.pos m2 * 2 ^ (e2 - b).
Proof.
  intros C1 C2 B1 B2 E N.
  destruct (Z.le_gt_cases (Z.pos m1 * 2 ^ (e1 - b)) (Z.pos m2 * 2 ^ (e2 - b)))
    as [|G]; [assumption|].
  pose proof (SFcompare_canonical_lt m2 m1 e2 e1 b C2 C1 B2 B1 G) as R.
  apply SFcompare_antisym in R. rewrite R in E. injection E as <-.
  now contradiction N.
Qed.

Lemma SFcompare_negative (m1 m2 : positive) (e1 e2 : Z) :
  SFcompare (S754_finite true m1 e1) (S754_finite true m2 e2)
  = SFcompare (S754_finite false m2 e2) (S754_finite false m1 e1).
Proof.
  cbv beta iota delta [SFcompare]. rewrite (Z.compare_antisym e1 e2).
  destruct (e1 ?= e2); simpl; try reflexivity.
  now rewrite (ZC4 m2 m1).
Qed.

(** The difference of two finite numbers in order, as an integer at
    the smaller exponent, is not positive. *)
Lemma aligned_difference (sa sb : bool) (ma mb : positive) (ea eb : Z) :
  canonical_mantissa prec emax ma ea = true ->
  canonical_mantissa prec emax mb eb = true ->
  SFleb (S754_finite sa ma ea) (S754_finite sb mb eb) = true ->
  cond_Zopp sa (Z.pos (fst (shl_align ma ea (Z.min ea eb))))
  - cond_Zopp sb (Z.pos (fst (shl_align mb eb (Z.min ea eb)))) <= 0.
Proof.
  intros Ca Cb. unfold SFleb. rewrite !shl_align_fst by lia.
  set (b0 := Z.min ea eb).
  assert (Pa : 0 < Z.pos ma * 2 ^ (ea - b0))
    by (apply Z.mul_pos_pos; [lia|apply Z.pow_pos_nonneg; lia]).
  assert (Pb : 0 < Z.pos mb * 2 ^ (eb - b0))
    by (apply Z.mul_pos_pos; [lia|apply Z.pow_pos_nonneg; lia]).
  destruct sa, sb; unfold cond_Zopp.
  - rewrite SFcompare_negative.
    destruct (SFcompare (S754_finite false mb eb) (S754_finite false ma ea))
      as [c|] eqn:E; [|discriminate].
    intros Le.
    pose proof (SFcompare_canonical_le mb ma eb ea b0 c Cb Ca
                  ltac:(lia) ltac:(lia) E) as K.
    assert (c <> Gt) by (intros ->; discriminate). specialize (K H). lia.
  - intros _. lia.
  - discriminate.
  - destruct (SFcompare (S754_finite false ma ea) (S754_finite false mb eb))
      as [c|] eqn:E; [|discriminate].
    intros Le.
    pose proof (SFcompare_canonical_le ma mb ea eb b0 c Ca Cb
                  ltac:(lia) ltac:(lia) E) as K.
    assert (c <> Gt) by (intros ->; discriminate). specialize (K H). lia.
Qed.

(** The difference of two numbers in order is not positive. *)
Lemma SFsub_le (a b : spec_float) :
  valid_binary a = true -> valid_binary b = true ->
  SFleb a b = true -> nonpos_or_nan (SF64sub a b) = true.
Proof.
  intros Va Vb.
  destruct a as [sa|sa| |sa ma ea], b as [sb|sb| |sb mb eb];
    try (unfold SFleb; cbv beta iota delta [SFcompare]; discriminate);
    try (unfold SFleb, SF64sub, SFsub; cbv beta iota delta [SFcompare];
         first [ destruct sa, sb; (discriminate || reflexivity)
               | destruct sa; (discriminate || reflexivity)
               | destruct sb; (discriminate || reflexivity) ]).
  intros Le.
  apply andb_prop in Va as [Ca _]. apply andb_prop in Vb as [Cb _].
  pose proof (aligned_difference sa sb ma mb ea eb Ca Cb Le) as D.
  unfold SF64sub, SFsub.
  pose proof (binary_normalize_sign
                (cond_Zopp sa (Z.pos (fst (shl_align ma ea (Z.min ea eb))))
                 - cond_Zopp sb (Z.pos (fst (shl_align mb eb (Z.min ea eb)))))
                (Z.min ea eb)) as S.
  cbv zeta.
  destruct (cond_Zopp sa (Z.pos (fst (shl_align ma ea (Z.min ea eb))))
            - cond_Zopp sb (Z.pos (fst (shl_align mb eb (Z.min ea eb)))))
    as [|p|p]; [reflexivity|lia|].
  destruct (binary_normalize _ _ _ _ _) as [s|s| |s m e]; try reflexivity;
    try contradiction; subst s; reflexivity.
Qed.

(** The difference of a number and a smaller one has its sign bit
    clear. *)
Lemma SFsub_gt (a b : spec_float) :
  valid_binary a = true -> valid_binary b = true ->
  SFltb a b = true -> nonneg_or_nan (SF64sub b a) = true.
Proof.
  intros Va Vb.
  destruct a as [sa|sa| |sa ma ea], b as [sb|sb| |sb mb eb];
    try (unfold SFltb; cbv beta iota delta [SFcompare]; discriminate);
    try (unfold SFltb, SF64sub, SFsub; cbv beta iota delta [SFcompare];
         first [ destruct sa, sb; (discriminate || reflexivity)
               | destruct sa; (discriminate || reflexivity)
               | destruct sb; (discriminate || reflexivity) ]).
  intros Lt.
  assert (Le : SFleb (S754_finite sa ma ea) (S754_finite sb mb eb) = true).
  { revert Lt. unfold SFltb, SFleb.
    destruct (SFcompare _ _) as [[]|]; congruence. }
  apply andb_prop in Va as [Ca _]. apply andb_prop in Vb as [Cb _].
  pose proof (aligned_difference sa sb ma mb ea eb Ca Cb Le) as D.
  unfold SF64sub, SFsub. rewrite (Z.min_comm eb ea).
  pose proof (binary_normalize_sign
                (cond_Zopp sb (Z.pos (fst (shl_align mb eb (Z.min ea eb))))
                 - cond_Zopp sa (Z.pos (fst (shl_align ma ea (Z.min ea eb)))))
                (Z.min ea eb)) as S.
  cbv zeta.
  destruct (cond_Zopp sb (Z.pos (fst (shl_align mb eb (Z.min ea eb))))
            - cond_Zopp sa (Z.pos (fst (shl_align ma ea (Z.min ea eb)))))
    as [|p|p] eqn:Dz; [reflexivity| |lia].
  unfold binary_normalize, binary_round in *.
  destruct (shl_align p _ _) as [mz ez].
  pose proof (binary_round_aux_sign false (Z.pos mz) ez loc_Exact
                ltac:(lia)) as S'.
  destruct (binary_round_aux _ _ _ _ _ _) as [s|s| |s m e];
    try contradiction; subst s; reflexivity.
Qed.

(** A quotient of a number that is not positive by one that is not
    negative is not positive. *)
Lemma SFdiv_nonpos (a b : spec_float) :
  nonpos_or_nan a = true -> nonneg_or_nan b = true ->
  nonpos_or_nan (SF64div a b) = true.
Proof.
  unfold SF64div, SFdiv.
  destruct a as [sa|sa| |sa ma ea], b as [sb|sb| |sb mb eb];
    try reflexivity; try discriminate;
    try (destruct sa; (discriminate || reflexivity));
    try (destruct sb; (discriminate || reflexivity));
    try (destruct sa, sb; (discriminate || reflexivity)).
  destruct sa; [|discriminate]. destruct sb; [discriminate|]. intros _ _.
  destruct (SFdiv_core_binary prec emax (Z.pos ma) ea (Z.pos mb) eb)
    as [[mz ez] lz] eqn:Core.
  assert (Hz : 0 <= mz).
  { revert Core. unfold SFdiv_core_binary.
    set (m' := match _ with Z.pos _ => _ | Z0 => _ | Z.neg _ => _ end).
    assert (Hm' : 0 <= m').
    { subst m'. destruct (_ - _ - _) as [|p|p]; try lia.
      rewrite Z.shiftl_mul_pow2 by lia.
      apply Z.mul_nonneg_nonneg; [lia|]. apply Z.pow_nonneg. lia. }
    pose proof (Z_div_mod m' (Z.pos mb) ltac:(lia)) as DM.
    destruct (Z.div_eucl m' (Z.pos mb)) as [q r]. intros [= <- _ _].
    destruct DM as [Eq Rr]. nia. }
  pose proof (binary_round_aux_sign (xorb true false) mz ez lz Hz) as S.
  destruct (binary_round_aux _ _ _ _ _ _) as [s|s| |s m e];
    try reflexivity; try contradiction; subst s; reflexivity.
Qed.

(** Multiplying by 1 is exact. *)
Lemma SFmul_1_l (a : spec_float) :
  valid_binary a = true ->
  SF64mul (S754_finite false 4503599627370496 (-52)) a = a.
Proof.
  intros V. unfold SF64mul, SFmul.
  destruct a as [s|s| |s m e]; try reflexivity.
  apply andb_prop in V as [C B]. apply Z.leb_le in B.
  unfold canonical_mantissa in C. apply Z.eqb_eq in C.
  cbv beta iota delta [xorb].
  change (Z.pos (4503599627370496 * m))
    with (Z.pos m~0~0~0~0~0~0~0~0~0~0~0~0~0~0~0~0~0~0~0~0~0~0~0~0~0~0
                  ~0~0~0~0~0~0~0~0~0~0~0~0~0~0~0~0~0~0~0~0~0~0~0~0~0~0).
  unfold binary_round_aux, shr_fexp.
  assert (D : Zdigits2
                (Z.pos m~0~0~0~0~0~0~0~0~0~0~0~0~0~0~0~0~0~0~0~0~0~0~0~0~0~0
                        ~0~0~0~0~0~0~0~0~0~0~0~0~0~0~0~0~0~0~0~0~0~0~0~0~0~0)
              + (-52 + e) = Z.pos (digits2_pos m) + e).
  { cbv beta iota delta [Zdigits2 digits2_pos]. fold digits2_pos. lia. }
  rewrite D, C.
  replace (e - (-52 + e)) with 52 by lia.
  cbv beta iota zeta delta [shr shr_record_of_loc SpecFloat.iter_pos shr_1
                            orb shr_m shr_r shr_s loc_of_shr_record
                            round_nearest_even].
  replace (-52 + e + 52) with e by lia.
  cbv beta iota delta [Zdigits2]. rewrite C, Z.sub_diag.
  cbv beta iota delta [shr shr_m].
  replace (e <=? emax - prec) with true by (symmetry; now apply Z.leb_le).
  reflexivity.
Qed.


#[local] Open Scope float_scope.

Lemma b64_mul_1_l (v : float) : 1 * v = v.
Proof.
  apply Prim2SF_inj. rewrite FloatAxioms.mul_spec.
  replace (Prim2SF 1) with (S754_finite false 4503599627370496 (-52))
    by (vm_compute; reflexivity).
  apply SFmul_1_l, FloatAxioms.Prim2SF_valid.
Qed.


(** A number that is not positive compares as at most zero, unless it
    is NaN. *)
Lemma nonpos_or_nan_leb (q : float) :
  nonpos_or_nan (Prim2SF q) = true ->
  PrimFloat.is_nan q = true \/ (q <=? 0) = true.
Proof.
  intros N. destruct (PrimFloat.is_nan q) eqn:Nq; [now left|right].
  apply is_nan_false_iff in Nq.
  rewrite FloatAxioms.leb_spec. unfold SFleb.
  replace (Prim2SF 0) with (S754_zero false) by (vm_compute; reflexivity).
  destruct (Prim2SF q) as [s|s| |s m e]; try contradiction;
    try reflexivity; destruct s; try discriminate; reflexivity.
Qed.

(** An input element at most [vmin], with [vmin < vmax]: the quotient
    [(e - 1 * vmin) / (vmax - vmin)] is at most zero, or NaN. *)
Lemma quotient_below (vmin vmax e : float) :
  (e <=? vmin) = true -> (vmin <? vmax) = true ->
  PrimFloat.is_nan ((e - 1 * vmin) / (vmax - vmin)) = true
  \/ ((e - 1 * vmin) / (vmax - vmin) <=? 0) = true.
Proof.
  rewrite FloatAxioms.leb_spec, FloatAxioms.ltb_spec. intros Le Lt.
  apply nonpos_or_nan_leb. rewrite b64_mul_1_l.
  rewrite FloatAxioms.div_spec, !FloatAxioms.sub_spec.
  apply SFdiv_nonpos.
  - apply SFsub_le; [apply FloatAxioms.Prim2SF_valid..|exact Le].
  - apply SFsub_gt; [apply FloatAxioms.Prim2SF_valid..|exact Lt].
Qed.
End Binary64Sign.

(** ** The claims about values, in binary64 *)

Section Binary64Claims.
#[local] Open Scope float_scope.
Variable L : Binary64.libm.
#[local] Abbreviation b64 := (Binary64.binary64 L).

Lemma b64_0_lt_1 : (0 <? 1) = true.
Proof. vm_compute. reflexivity. Qed.



(** C6 (as amended): for each of the seven entries of [warpers], on
    every input and for all arguments, the warper returns an array as
    long as the input whose elements are [clip(a, 0, 1)] with
    [a = (g(t) - bias) * contrast + 0.5], where [t] is the normalized
    value and [g] the warp of that name: an element is NaN exactly when
    [a] is NaN, and lies in [0, 1] otherwise. *)
Theorem stretch_range_binary64 (h : heap float) (x : array)
    (xs : list float) (vmin vmax bias contrast : float) (stretch : string)
    (warp : warper (F := float)) :
  h !! x = Some xs ->
  dict_get stretch (warpers (H := b64)) = Some warp ->
  exists g r fresh ys,
    dict_get stretch (warp_fns (H := b64)) = Some g
    /\ warp x vmin vmax bias contrast h = (Ok r, h ++ fresh)
    /\ (h ++ fresh) !! r = Some ys
    /\ length ys = length xs
    /\ forall i e, xs !! i = Some e ->
         exists y, ys !! i = Some y
           /\ y = Np.clip (H := b64) 0 1
                    ((g (norm_elt (H := b64) vmin vmax e) - bias) * contrast
                     + 0.5)
           /\ PrimFloat.is_nan y
              = PrimFloat.is_nan
                  ((g (norm_elt (H := b64) vmin vmax e) - bias) * contrast
                   + 0.5)
           /\ (PrimFloat.is_nan y = false ->
               (0 <=? y) = true /\ (y <=? 1) = true).
Proof.
  intros E W.
  destruct (warpers_run (H := b64) stretch warp W) as (g & G & C).
  destruct (C h x xs vmin vmax bias contrast E) as (r & fresh & R & _ & Lk).
  exists g, r, fresh. eexists. split; [exact G|].
  split; [exact R|]. split; [exact Lk|].
  split; [apply length_fmap|].
  intros i e Hi. eexists. split; [rewrite list_lookup_fmap, Hi; reflexivity|].
  split; [reflexivity|].
  unfold stretch_elt, cscale_elt.
  change (@add float b64 (@mul float b64
            (@sub float b64 (g (norm_elt (H := b64) vmin vmax e)) bias)
            contrast) (@lit_0_5 float b64))
    with ((g (norm_elt (H := b64) vmin vmax e) - bias) * contrast + 0.5).
  set (a := (g (norm_elt (H := b64) vmin vmax e) - bias) * contrast + 0.5).
  destruct (b64_clip_range L 0 1 a b64_0_lt_1) as [Hn Hr].
  split; [exact Hn|]. intros Ny. apply Hr. rewrite <- Hn. exact Ny.
Qed.

(** C1 (as amended): for every call of [normalize] with a valid stretch
    name, the selected warper is called with [lo = min(vmin, vmax)] and
    [hi = max(vmin, vmax)].  When neither bound is NaN, [lo <= hi], and
    [lo < hi] exactly when [vmin] and [vmax] differ.  When
    [vmin == vmax], or when a bound is NaN, the warper receives
    [lo = hi = vmin]. *)
Theorem normalize_bounds_binary64 (h : heap float) (value : array)
    (vmin vmax bias contrast : float) (stretch : string)
    (warp : warper (F := float)) :
  dict_get stretch (warpers (H := b64)) = Some warp ->
  let lo := Py.min (H := b64) vmin vmax in
  let hi := Py.max (H := b64) vmin vmax in
  normalize (H := b64) value vmin vmax bias contrast stretch h
  = (result <- warp value lo hi bias contrast ;;
     result <- (if vmax <=? vmin
                then ufunc_out (fun e => 1 - e) result result
                else ret result) ;;
     result <- ufunc_out (fun e => 255 * e) result result ;;
     result <- ufunc_out (Np.clip (H := b64) 0 255) result result ;;
     astype_uint8 (H := b64) result) h
  /\ (PrimFloat.is_nan vmin = false -> PrimFloat.is_nan vmax = false ->
      (lo <=? hi) = true /\ ((lo <? hi) = true <-> (vmin =? vmax) = false))
  /\ ((vmin =? vmax) = true -> lo = vmin /\ hi = vmin)
  /\ (PrimFloat.is_nan vmin = true \/ PrimFloat.is_nan vmax = true ->
      lo = vmin /\ hi = vmin /\ (lo <? hi) = false).
Proof.
  intros W lo hi. split; [unfold normalize; rewrite W; reflexivity|].
  subst lo hi. unfold Py.min, Py.max. simpl.
  assert (I : forall v : float, (v <? v) = false).
  { intros v. destruct (v <? v) eqn:I; [|reflexivity].
    now rewrite (b64_ltb_asym _ _ I) in I. }
  split; [|split].
  - intros Nmin Nmax. destruct (vmin <? vmax) eqn:A.
    + rewrite (b64_ltb_asym _ _ A), A, (b64_ltb_leb _ _ A).
      split; [reflexivity|].
      split; [intros _; now apply b64_ltb_neq|reflexivity].
    + destruct (vmax <? vmin) eqn:B.
      * rewrite B, (b64_ltb_leb _ _ B). split; [reflexivity|].
        split; [intros _|reflexivity].
        rewrite b64_eqb_sym. now apply b64_ltb_neq.
      * rewrite (b64_leb_refl _ Nmin), I,
          (b64_trichotomy _ _ Nmin Nmax A B).
        split; [reflexivity|]. split; discriminate.
  - intros Q.
    assert (A : (vmin <? vmax) = false).
    { destruct (vmin <? vmax) eqn:A; [|reflexivity].
      rewrite (b64_ltb_neq _ _ A) in Q. discriminate. }
    assert (B : (vmax <? vmin) = false).
    { destruct (vmax <? vmin) eqn:B; [|reflexivity].
      rewrite b64_eqb_sym, (b64_ltb_neq _ _ B) in Q. discriminate. }
    rewrite A, B. split; reflexivity.
  - intros N.
    assert (A : (vmin <? vmax) = false).
    { destruct (vmin <? vmax) eqn:A; [|reflexivity].
      destruct (ltb_not_nan _ _ A) as [? ?]. destruct N; congruence. }
    assert (B : (vmax <? vmin) = false).
    { destruct (vmax <? vmin) eqn:B; [|reflexivity].
      destruct (ltb_not_nan _ _ B) as [? ?]. destruct N; congruence. }
    rewrite A, B. split; [reflexivity|]. split; [reflexivity|apply I].
Qed.

(** The byte [normalize] gives for an element [x] of the input at the
    default arguments and the bounds [(0, 1)]: [norm] with
    [vmin = 0] and [vmax = 1], [cscale] with [bias = 0.5] and
    [contrast = 1], the scaling by 255, the clip and the conversion. *)
Definition default_byte (x : float) : Z :=
  Np.to_uint8 (H := b64)
    (Np.clip (H := b64) 0 255
       (255 * Np.clip (H := b64) 0 1
                ((Np.clip (H := b64) 0 1 ((x - 1 * 0) / (1 - 0)) - 0.5) * 1
                 + 0.5))).

(** C4 (as amended): with the default bias 0.5, contrast 1 and stretch
    ['linear'], [normalize] with [vmin = 0] and [vmax = 1] gives
    [default_byte x] for every element [x] of the input, and on
    [0, 0.5, 1] the output is [0, 127, 255]. *)
Theorem normalize_default_binary64 (h : heap float) (value : array)
    (xs : list float) :
  h !! value = Some xs ->
  (exists fresh,
     normalize (H := b64) value 0 1 (bias_default (H := b64))
       (contrast_default (H := b64)) stretch_default h
     = (Ok (default_byte <$> xs), h ++ fresh))
  /\ default_byte <$> [0; 0.5; 1] = [0%Z; 127%Z; 255%Z].
Proof.
  intros E. split; [|vm_compute; reflexivity].
  destruct (normalize_run (H := b64) h value xs 0 1 0.5 1 "linear"
              (linear_warp (H := b64)) E eq_refl)
    as (g & r & fresh & fresh' & G & _ & _ & N).
  injection G as <-. exists fresh'.
  change (bias_default (H := b64)) with 0.5.
  change (contrast_default (H := b64)) with 1.
  change stretch_default with "linear"%string.
  rewrite N. f_equal. f_equal.
  rewrite <- !list_fmap_compose. apply list_fmap_ext. intros i e _.
  reflexivity.
Qed.

(** C10 (as amended): the final quantization truncates the rounded
    product.  For the stretch result [rs] (the array the selected warper
    returns, complemented when [vmax <= vmin]) the output of [normalize]
    is, element by element, the byte of [clip(255 * r, 0, 255)] with the
    product rounded to binary64: the integer part of the clipped product
    when that is a number, 0 when [r] is NaN.  [r = 0.5] gives 127 and
    [r = 1] gives 255; the output 255 is given only by an [r] of at
    least 1, which for a stretch result that was not complemented is
    [r = 1]. *)
Theorem quantization_binary64 (h : heap float) (value : array)
    (xs : list float) (vmin vmax bias contrast : float) (stretch : string)
    (warp : warper (F := float)) :
  h !! value = Some xs ->
  dict_get stretch (warpers (H := b64)) = Some warp ->
  exists r fresh rs0 rs out fresh',
    warp value (Py.min (H := b64) vmin vmax) (Py.max (H := b64) vmin vmax)
      bias contrast h
    = (Ok r, h ++ fresh)
    /\ (h ++ fresh) !! r = Some rs0
    /\ rs = (fun e => if vmax <=? vmin then 1 - e else e) <$> rs0
    /\ normalize (H := b64) value vmin vmax bias contrast stretch h
       = (Ok out, h ++ fresh')
    /\ out = (fun r => Np.to_uint8 (H := b64)
                         (Np.clip (H := b64) 0 255 (255 * r))) <$> rs
    /\ Forall (fun b => (0 <= b <= 255)%Z) out
    /\ forall i r, rs !! i = Some r ->
         exists b, out !! i = Some b
           /\ (r = 0.5 -> b = 127%Z)
           /\ (r = 1 -> b = 255%Z)
           /\ (PrimFloat.is_nan r = true -> b = 0%Z)
           /\ (PrimFloat.is_nan (255 * r) = false ->
               b = Binary64.trunc (Np.clip (H := b64) 0 255 (255 * r)))
           /\ (b = 255%Z -> (1 <=? r) = true)
           /\ (b = 255%Z -> (vmax <=? vmin) = false -> r = 1).
Proof.
  intros E W.
  destruct (normalize_run (H := b64) h value xs vmin vmax bias contrast
              stretch warp E W)
    as (g & r & fresh & fresh' & _ & R & Lk & N).
  set (rs0' := stretch_elt (H := b64) g (Py.min (H := b64) vmin vmax)
                 (Py.max (H := b64) vmin vmax) bias contrast <$> xs) in *.
  exists r, fresh, rs0'. eexists. eexists. exists fresh'.
  split; [exact R|]. split; [exact Lk|]. split; [reflexivity|].
  split; [exact N|]. split; [reflexivity|]. split.
  - rewrite Forall_fmap. apply Forall_forall. intros e _.
    unfold compose, quantize_elt, Np.to_uint8.
    match goal with
    | |- (0 <= ?t mod 256 <= 255)%Z =>
        pose proof (Z.mod_pos_bound t 256 eq_refl); lia
    end.
  - intros i e Hi. exists (quantize_elt (H := b64) e). split.
    { change (invert_elt (H := b64) (@leb float b64 vmax vmin))
        with (fun e : float => if vmax <=? vmin then 1 - e else e).
      rewrite list_lookup_fmap, Hi. reflexivity. }
    split; [intros ->; vm_compute; reflexivity|].
    split; [intros ->; vm_compute; reflexivity|].
    assert (Top : quantize_elt (H := b64) e = 255%Z -> (1 <=? e) = true).
    { intros Q255.
      destruct (quantize_cases L e) as [[_ Q]|(Np & _ & _ & T)];
        [rewrite Q in Q255; discriminate|].
      specialize (T Q255).
      destruct (PrimFloat.is_nan e) eqn:Ne.
      { rewrite (nan_mul 255 e) in Np by now right. discriminate. }
      apply b64_not_ltb; [exact Ne|reflexivity|].
      destruct (e <? 1) eqn:Lt1; [|reflexivity].
      pose proof (mul_255_lt e Lt1) as M.
      rewrite (b64_leb_not_ltb _ _ T) in M. discriminate. }
    split.
    { intros Ne.
      destruct (quantize_cases L e) as [[_ Q]|(Np & _)]; [exact Q|].
      rewrite (nan_mul 255 e) in Np by now right. discriminate. }
    split.
    { intros Np.
      destruct (quantize_cases L e) as [[Np' _]|(_ & Q & _)];
        [congruence|exact Q]. }
    split; [exact Top|].
    intros Q255 Inv. apply b64_eq_one; [exact (Top Q255)|].
    rewrite Inv, list_lookup_fmap in Hi.
    destruct (rs0' !! i) as [e0|] eqn:H0; [|discriminate].
    injection Hi as <-.
    subst rs0'. rewrite list_lookup_fmap in H0.
    destruct (xs !! i) as [x0|]; [|discriminate]. injection H0 as <-.
    unfold stretch_elt, cscale_elt in *.
    match goal with
    | |- (Np.clip ?lo ?hi ?a <=? 1) = true =>
        destruct (b64_clip_range L 0 1 a b64_0_lt_1) as [Hn Hr];
        destruct (PrimFloat.is_nan a) eqn:Na
    end.
    + specialize (Top Q255). apply leb_not_nan in Top as [_ Top].
      change (@of_int float b64 0) with 0 in Top.
      change (@of_int float b64 1) with 1 in Top.
      congruence.
    + apply Hr. reflexivity.
Qed.

End Binary64Claims.

Section Binary64Gray.
#[local] Open Scope float_scope.

Lemma b64_eqb_zero (p : float) :
  (p =? 0) = true -> exists s, Prim2SF p = S754_zero s.
Proof.
  rewrite FloatAxioms.eqb_spec. unfold SFeqb.
  replace (Prim2SF 0) with (S754_zero false) by (vm_compute; reflexivity).
  destruct (Prim2SF p) as [s|s| |s m e]; cbv beta iota delta [SFcompare];
    try discriminate; [intros _; now exists s| |]; destruct s; discriminate.
Qed.

(** Adding 0.5 to a zero gives 0.5. *)
Lemma add_zero_half (p : float) : (p =? 0) = true -> p + 0.5 = 0.5.
Proof.
  intros Z. destruct (b64_eqb_zero p Z) as [s P].
  apply Prim2SF_inj. rewrite FloatAxioms.add_spec, P.
  replace (Prim2SF 0.5) with (S754_finite false 4503599627370496 (-53))
    by (vm_compute; reflexivity).
  reflexivity.
Qed.

(** A number that is not infinite nor NaN, times a zero, is a zero. *)
Lemma mul_zero_r (d c : float) :
  (c =? 0) = true -> (abs d <? infinity) = true -> (d * c =? 0) = true.
Proof.
  intros Zc. destruct (b64_eqb_zero c Zc) as [s P].
  rewrite FloatAxioms.ltb_spec, FloatAxioms.abs_spec, FloatAxioms.eqb_spec,
    FloatAxioms.mul_spec, P.
  replace (Prim2SF infinity) with (S754_infinity false)
    by (vm_compute; reflexivity).
  replace (Prim2SF 0) with (S754_zero false) by (vm_compute; reflexivity).
  unfold SFltb, SFeqb, SF64mul.
  destruct (Prim2SF d) as [sd|sd| |sd md ed];
    cbv beta iota delta [SFmul SFabs SFcompare]; try discriminate;
    reflexivity.
Qed.

Variable L : Binary64.libm.
#[local] Abbreviation b64 := (Binary64.binary64 L).

Lemma mid_gray_byte (inverted : bool) :
  quantize_elt (H := b64)
    (invert_elt (H := b64) inverted (Np.clip (H := b64) 0 1 0.5))
  = 127%Z.
Proof. destruct inverted; vm_compute; reflexivity. Qed.

(** X6: mid-gray.  On a valid stretch name, an element for which the
    product [(g(t) - bias) * contrast] of the adjuster is a zero gives
    the byte 127, whether the bounds are exchanged or not; this is so
    for every element whose [g(t) - bias] is neither infinite nor NaN
    when the contrast is 0. *)
Theorem binary64_mid_gray (h : heap float) (value : array)
    (xs : list float) (vmin vmax bias contrast : float) (stretch : string)
    (warp : warper (F := float)) :
  h !! value = Some xs ->
  dict_get stretch (warpers (H := b64)) = Some warp ->
  exists g out fresh,
    dict_get stretch (warp_fns (H := b64)) = Some g
    /\ normalize (H := b64) value vmin vmax bias contrast stretch h
       = (Ok out, h ++ fresh)
    /\ forall i e, xs !! i = Some e ->
         (((g (norm_elt (H := b64) (Py.min (H := b64) vmin vmax)
                 (Py.max (H := b64) vmin vmax) e) - bias) * contrast =? 0)
          = true ->
          out !! i = Some 127%Z)
         /\ ((contrast =? 0) = true ->
             (abs (g (norm_elt (H := b64) (Py.min (H := b64) vmin vmax)
                        (Py.max (H := b64) vmin vmax) e) - bias)
              <? infinity) = true ->
             out !! i = Some 127%Z).
Proof.
  intros E W.
  destruct (normalize_run (H := b64) h value xs vmin vmax bias contrast
              stretch warp E W)
    as (g & r & fresh & fresh' & G & _ & _ & N).
  exists g. eexists. exists fresh'. split; [exact G|]. split; [exact N|].
  intros i e Hi.
  set (d := g (norm_elt (H := b64) (Py.min (H := b64) vmin vmax)
                 (Py.max (H := b64) vmin vmax) e) - bias).
  assert (K : (d * contrast =? 0) = true ->
              (quantize_elt (H := b64) <$>
                 (invert_elt (H := b64) (@leb float b64 vmax vmin) <$>
                    (stretch_elt (H := b64) g (Py.min (H := b64) vmin vmax)
                       (Py.max (H := b64) vmin vmax) bias contrast <$> xs)))
              !! i = Some 127%Z).
  { intros Zp. rewrite !list_lookup_fmap, Hi.
    cbn [fmap option_fmap option_map]. f_equal.
    rewrite <- (mid_gray_byte (@leb float b64 vmax vmin)).
    f_equal. f_equal.
    unfold stretch_elt, cscale_elt. f_equal.
    exact (add_zero_half _ Zp). }
  split; [exact K|].
  intros Zc Fd. apply K, mul_zero_r; assumption.
Qed.
End Binary64Gray.

Section Binary64Black.
#[local] Open Scope float_scope.
Variable L : Binary64.libm.
#[local] Abbreviation b64 := (Binary64.binary64 L).

Lemma black_byte (g : float -> float) (y : float) :
  g = linear_fn (F := float) \/ g = sqrt_fn (H := b64) ->
  y = 0 \/ PrimFloat.is_nan y = true ->
  quantize_elt (H := b64)
    (cscale_elt (H := b64) (bias_default (H := b64))
       (contrast_default (H := b64)) (g y))
  = 0%Z.
Proof.
  intros G [-> | N].
  - destruct G as [-> | ->]; vm_compute; reflexivity.
  - assert (Ng : PrimFloat.is_nan (g y) = true).
    { destruct G as [-> | ->]; [exact N|apply nan_sqrt, N]. }
    pose proof (nan_cscale_elt L (bias_default (H := b64))
                  (contrast_default (H := b64)) (g y) (or_introl Ng)) as Nc.
    destruct (quantize_cases L
                (cscale_elt (H := b64) (bias_default (H := b64))
                   (contrast_default (H := b64)) (g y)))
      as [[_ Q]|(Np & _)]; [exact Q|].
    rewrite nan_mul in Np by (right; exact Nc). discriminate.
Qed.

(** X19: black below [vmin].  With the linear or the square-root
    stretch, the default bias and contrast and [vmin < vmax], every
    input element that is at most [vmin] gives the byte 0, whatever the
    bounds are otherwise (infinite bounds and overflowing differences
    included). *)
Theorem binary64_below_vmin_black (h : heap float) (value : array)
    (xs : list float) (vmin vmax : float) (stretch : string)
    (warp : warper (F := float)) :
  h !! value = Some xs ->
  dict_get stretch (warpers (H := b64)) = Some warp ->
  stretch = "linear"%string \/ stretch = "sqrt"%string ->
  (vmin <? vmax) = true ->
  exists out fresh,
    normalize (H := b64) value vmin vmax (bias_default (H := b64))
      (contrast_default (H := b64)) stretch h
    = (Ok out, h ++ fresh)
    /\ forall i e, xs !! i = Some e ->
         (e <=? vmin) = true -> out !! i = Some 0%Z.
Proof.
  intros E W S Hlt.
  destruct (normalize_run (H := b64) h value xs vmin vmax
              (bias_default (H := b64)) (contrast_default (H := b64))
              stretch warp E W)
    as (g & r & fresh & fresh' & G & _ & _ & N).
  eexists. exists fresh'. split; [exact N|].
  intros i e Hi Le.
  assert (Lo : Py.min (H := b64) vmin vmax = vmin).
  { unfold Py.min. simpl. now rewrite (b64_ltb_asym _ _ Hlt). }
  assert (Hi' : Py.max (H := b64) vmin vmax = vmax).
  { unfold Py.max. simpl. now rewrite Hlt. }
  assert (Inv : @leb float b64 vmax vmin = false).
  { simpl. destruct (vmax <=? vmin) eqn:I; [|reflexivity].
    rewrite (b64_leb_not_ltb _ _ I) in Hlt. discriminate. }
  rewrite Lo, Hi', Inv. rewrite !list_lookup_fmap, Hi.
  cbn [fmap option_fmap option_map invert_elt]. f_equal.
  unfold stretch_elt. apply black_byte.
  - destruct S as [-> | ->]; injection G as <-; [now left|now right].
  - destruct (quotient_below vmin vmax e Le Hlt) as [Nq|Lq].
    + right. apply (nan_clip L). exact Nq.
    + left. apply (b64_clip0 L 1 _ b64_0_lt_1). exact Lq.
Qed.
End Binary64Black.

(** ** Runs on which the specification fails *)

Section Binary64Counterexamples.
#[local] Open Scope float_scope.
#[local] Abbreviation b64u := (Binary64.binary64 libm_unused).



(** C6 (as stated) fails: with [vmin = -2^1023 < vmax = 2^1023] the
    input element [2^1023], which lies in [vmin, vmax], is stretched to
    NaN by the linear stretch. *)
Lemma linear_warp_overflow_is_nan :
  (-0x1p+1023 <? 0x1p+1023) = true
  /\ (-0x1p+1023 <=? 0x1p+1023) = true
  /\ (0x1p+1023 <=? 0x1p+1023) = true
  /\ linear_warp (H := b64u) 0%nat (-0x1p+1023) 0x1p+1023 0.5 1
       [[0x1p+1023]]
     = (Ok 1%nat, [[0x1p+1023]; [nan]])
  /\ (0 <=? nan) = false /\ (nan <=? 1) = false.
Proof. repeat split; vm_compute; reflexivity. Qed.


(** C10 (as stated) fails: [r = 0x1.010101010101p-2] is the stretch
    result of the linear stretch on itself; [floor(255 * r)] is 63, but
    the product rounds to 64 and the output byte is 64. *)
Lemma quantization_rounds_product :
  Prim2SF 0x1.010101010101p-2 = S754_finite false 4521260802379792 (-54)
  /\ (255 * 4521260802379792 / 2 ^ 54 = 63)%Z
  /\ linear_warp (H := b64u) 0%nat 0 1 0.5 1 [[0x1.010101010101p-2]]
     = (Ok 1%nat, [[0x1.010101010101p-2]; [0x1.010101010101p-2]])
  /\ normalize (H := b64u) 0%nat 0 1 0.5 1 "linear" [[0x1.010101010101p-2]]
     = (Ok [64%Z], [[0x1.010101010101p-2]; [64]]).
Proof. repeat split; vm_compute; reflexivity. Qed.
End Binary64Counterexamples.

(** ** Instances *)

Section Binary64ClaimWitnesses.
#[local] Open Scope float_scope.
#[local] Abbreviation b64u := (Binary64.binary64 libm_unused).



Lemma stretch_range_binary64_witness :
  exists g r fresh ys,
    dict_get "sqrt" (warp_fns (H := b64u)) = Some g
    /\ sqrt_warp (H := b64u) 0%nat 0 4 0.5 1 [[0; 1; 4; nan]] = (Ok r, [[0; 1; 4; nan]] ++ fresh)
    /\ ([[0; 1; 4; nan]] ++ fresh) !! r = Some ys
    /\ length ys = length [0; 1; 4; nan]
    /\ forall i e, [0; 1; 4; nan] !! i = Some e ->
         exists y, ys !! i = Some y
           /\ y = Np.clip (H := b64u) 0 1
                    ((g (norm_elt (H := b64u) 0 4 e) - 0.5) * 1
                     + 0.5)
           /\ PrimFloat.is_nan y
              = PrimFloat.is_nan
                  ((g (norm_elt (H := b64u) 0 4 e) - 0.5) * 1
                   + 0.5)
           /\ (PrimFloat.is_nan y = false ->
               (0 <=? y) = true /\ (y <=? 1) = true).
Proof.
  apply (stretch_range_binary64 libm_unused [[0; 1; 4; nan]] 0%nat [0; 1; 4; nan] 0 4 0.5 1 "sqrt"
           (sqrt_warp (H := b64u)));
    reflexivity.
Defined.

Lemma normalize_bounds_binary64_witness :
  let lo := Py.min (H := b64u) 3 3 in
  let hi := Py.max (H := b64u) 3 3 in
  normalize (H := b64u) 0%nat 3 3 0.5 1 "linear" [[1; 3; 5]]
  = (result <- linear_warp (H := b64u) 0%nat lo hi 0.5 1 ;;
     result <- (if 3 <=? 3
                then ufunc_out (fun e => 1 - e) result result
                else ret result) ;;
     result <- ufunc_out (fun e => 255 * e) result result ;;
     result <- ufunc_out (Np.clip (H := b64u) 0 255) result result ;;
     astype_uint8 (H := b64u) result) [[1; 3; 5]]
  /\ (PrimFloat.is_nan 3 = false -> PrimFloat.is_nan 3 = false ->
      (lo <=? hi) = true /\ ((lo <? hi) = true <-> (3 =? 3) = false))
  /\ ((3 =? 3) = true -> lo = 3 /\ hi = 3)
  /\ (PrimFloat.is_nan 3 = true \/ PrimFloat.is_nan 3 = true ->
      lo = 3 /\ hi = 3 /\ (lo <? hi) = false).
Proof.
  apply (normalize_bounds_binary64 libm_unused [[1; 3; 5]] 0%nat 3 3 0.5 1 "linear"
           (linear_warp (H := b64u)));
    reflexivity.
Defined.

Lemma normalize_default_binary64_witness :
  (exists fresh,
     normalize (H := b64u) 0%nat 0 1 (bias_default (H := b64u))
       (contrast_default (H := b64u)) stretch_default [[0; 0.5; 1]]
     = (Ok (default_byte libm_unused <$> [0; 0.5; 1]), [[0; 0.5; 1]] ++ fresh))
  /\ default_byte libm_unused <$> [0; 0.5; 1] = [0%Z; 127%Z; 255%Z].
Proof.
  apply (normalize_default_binary64 libm_unused [[0; 0.5; 1]] 0%nat [0; 0.5; 1]);
    reflexivity.
Defined.

Lemma quantization_binary64_witness :
  exists r fresh rs0 rs out fresh',
    linear_warp (H := b64u) 0%nat (Py.min (H := b64u) 0 1) (Py.max (H := b64u) 0 1)
      0.5 1 [[0; 0.5; 1]]
    = (Ok r, [[0; 0.5; 1]] ++ fresh)
    /\ ([[0; 0.5; 1]] ++ fresh) !! r = Some rs0
    /\ rs = (fun e => if 1 <=? 0 then 1 - e else e) <$> rs0
    /\ normalize (H := b64u) 0%nat 0 1 0.5 1 "linear" [[0; 0.5; 1]]
       = (Ok out, [[0; 0.5; 1]] ++ fresh')
    /\ out = (fun r => Np.to_uint8 (H := b64u)
                         (Np.clip (H := b64u) 0 255 (255 * r))) <$> rs
    /\ Forall (fun b => (0 <= b <= 255)%Z) out
    /\ forall i r, rs !! i = Some r ->
         exists b, out !! i = Some b
           /\ (r = 0.5 -> b = 127%Z)
           /\ (r = 1 -> b = 255%Z)
           /\ (PrimFloat.is_nan r = true -> b = 0%Z)
           /\ (PrimFloat.is_nan (255 * r) = false ->
               b = Binary64.trunc (Np.clip (H := b64u) 0 255 (255 * r)))
           /\ (b = 255%Z -> (1 <=? r) = true)
           /\ (b = 255%Z -> (1 <=? 0) = false -> r = 1).
Proof.
  apply (quantization_binary64 libm_unused [[0; 0.5; 1]] 0%nat [0; 0.5; 1] 0 1 0.5 1 "linear"
           (linear_warp (H := b64u)));
    reflexivity.
Defined.


Lemma binary64_mid_gray_witness :
  exists g out fresh,
    dict_get "linear" (warp_fns (H := b64u)) = Some g
    /\ normalize (H := b64u) 0%nat 0 1 0.5 0 "linear" [[0; 0.25; 1]]
       = (Ok out, [[0; 0.25; 1]] ++ fresh)
    /\ forall i e, [0; 0.25; 1] !! i = Some e ->
         (((g (norm_elt (H := b64u) (Py.min (H := b64u) 0 1)
                 (Py.max (H := b64u) 0 1) e) - 0.5) * 0 =? 0)
          = true ->
          out !! i = Some 127%Z)
         /\ ((0 =? 0) = true ->
             (abs (g (norm_elt (H := b64u) (Py.min (H := b64u) 0 1)
                        (Py.max (H := b64u) 0 1) e) - 0.5)
              <? infinity) = true ->
             out !! i = Some 127%Z).
Proof.
  apply (binary64_mid_gray libm_unused [[0; 0.25; 1]] 0%nat [0; 0.25; 1] 0 1 0.5 0 "linear"
           (linear_warp (H := b64u)));
    reflexivity.
Defined.

Lemma binary64_below_vmin_black_witness :
  exists out fresh,
    normalize (H := b64u) 0%nat 0 4 (bias_default (H := b64u))
      (contrast_default (H := b64u)) "sqrt" [[-1; 0; 0.5; 4]]
    = (Ok out, [[-1; 0; 0.5; 4]] ++ fresh)
    /\ forall i e, [-1; 0; 0.5; 4] !! i = Some e ->
         (e <=? 0) = true -> out !! i = Some 0%Z.
Proof.
  apply (binary64_below_vmin_black libm_unused [[-1; 0; 0.5; 4]] 0%nat [-1; 0; 0.5; 4] 0 4 "sqrt"
           (sqrt_warp (H := b64u)));
    [reflexivity|reflexivity|right; reflexivity|reflexivity].
Defined.
End Binary64ClaimWitnesses.
